(** * QuicTransport: the memberlist transport of kv/memberlist/quic_transport.go

    A shallow embedding of the Go code: the packet frame codec
    (writeTo / handleConnection), the accept loop with its backoff
    (quicListen), listener construction (NewQuicTransport), and the
    external surface (WriteTo, DialTimeout, GetAutoBindPort,
    FinalAdvertiseAddr). *)

From Stdlib Require Import String Ascii DecimalString.
From Stdlib Require Import Init.Byte Strings.Byte.
From Stdlib Require Import List ZArith Lia Bool Arith.
Import ListNotations.

Local Open Scope Z_scope.

(* ================================================================== *)
(** ** Bytes *)

Definition byte_of_Z (z : Z) : byte :=
  match Byte.of_N (Z.to_N (z mod 256)) with
  | Some b => b
  | None => x00
  end.

Definition Z_of_byte (b : byte) : Z := Z.of_N (Byte.to_N b).

(** Go's [byte(n)] conversion of an [int]: the low eight bits. *)
Definition byte_of_int (n : nat) : byte := byte_of_Z (Z.of_nat n).

(** Go's [int(b)] of a byte, as used by [make([]byte, b)]. *)
Definition int_of_byte (b : byte) : nat := N.to_nat (Byte.to_N b).

(* ================================================================== *)
(** ** crypto/md5

    [md5.Sum] as RFC 1321 defines it, on 32-bit words held in [Z]. *)

Module md5.

Definition Size : nat := 16.
Definition BlockSize : nat := 64.

Definition mask32 : Z := 0xFFFFFFFF.
Definition w32 (x : Z) : Z := Z.land x mask32.
Definition add32 (x y : Z) : Z := w32 (x + y).
Definition not32 (x : Z) : Z := Z.lxor x mask32.
Definition rotl32 (x c : Z) : Z :=
  w32 (Z.lor (Z.shiftl x c) (Z.shiftr x (32 - c))).

Definition K : list Z :=
  [ 0xd76aa478; 0xe8c7b756; 0x242070db; 0xc1bdceee;
    0xf57c0faf; 0x4787c62a; 0xa8304613; 0xfd469501;
    0x698098d8; 0x8b44f7af; 0xffff5bb1; 0x895cd7be;
    0x6b901122; 0xfd987193; 0xa679438e; 0x49b40821;
    0xf61e2562; 0xc040b340; 0x265e5a51; 0xe9b6c7aa;
    0xd62f105d; 0x02441453; 0xd8a1e681; 0xe7d3fbc8;
    0x21e1cde6; 0xc33707d6; 0xf4d50d87; 0x455a14ed;
    0xa9e3e905; 0xfcefa3f8; 0x676f02d9; 0x8d2a4c8a;
    0xfffa3942; 0x8771f681; 0x6d9d6122; 0xfde5380c;
    0xa4beea44; 0x4bdecfa9; 0xf6bb4b60; 0xbebfbc70;
    0x289b7ec6; 0xeaa127fa; 0xd4ef3085; 0x04881d05;
    0xd9d4d039; 0xe6db99e5; 0x1fa27cf8; 0xc4ac5665;
    0xf4292244; 0x432aff97; 0xab9423a7; 0xfc93a039;
    0x655b59c3; 0x8f0ccc92; 0xffeff47d; 0x85845dd1;
    0x6fa87e4f; 0xfe2ce6e0; 0xa3014314; 0x4e0811a1;
    0xf7537e82; 0xbd3af235; 0x2ad7d2bb; 0xeb86d391 ].

Definition shifts : list Z :=
  [ 7; 12; 17; 22; 7; 12; 17; 22; 7; 12; 17; 22; 7; 12; 17; 22;
    5;  9; 14; 20; 5;  9; 14; 20; 5;  9; 14; 20; 5;  9; 14; 20;
    4; 11; 16; 23; 4; 11; 16; 23; 4; 11; 16; 23; 4; 11; 16; 23;
    6; 10; 15; 21; 6; 10; 15; 21; 6; 10; 15; 21; 6; 10; 15; 21 ].

(** Little-endian 32-bit words. *)
Definition le32_bytes (x : Z) : list byte :=
  [ byte_of_Z x; byte_of_Z (Z.shiftr x 8);
    byte_of_Z (Z.shiftr x 16); byte_of_Z (Z.shiftr x 24) ].

Definition le_word (bs : list byte) : Z :=
  fold_right (fun b acc => Z_of_byte b + 256 * acc) 0 bs.

Fixpoint words (n : nat) (bs : list byte) : list Z :=
  match n with
  | O => []
  | S n' => le_word (firstn 4 bs) :: words n' (skipn 4 bs)
  end.

Definition digest : Type := Z * Z * Z * Z.

Definition init : digest := (0x67452301, 0xefcdab89, 0x98badcfe, 0x10325476).

(** One of the 64 operations of a block. *)
Definition step (M : list Z) (st : digest) (i : nat) : digest :=
  let '(a, b, c, d) := st in
  let iz := Z.of_nat i in
  let '(f, g) :=
    if iz <? 16 then (Z.lor (Z.land b c) (Z.land (not32 b) d), iz)
    else if iz <? 32 then
      (Z.lor (Z.land d b) (Z.land (not32 d) c), (5 * iz + 1) mod 16)
    else if iz <? 48 then (Z.lxor (Z.lxor b c) d, (3 * iz + 5) mod 16)
    else (Z.lxor c (Z.lor b (not32 d)), (7 * iz) mod 16) in
  let f' := add32 (add32 (add32 f a) (nth i K 0)) (nth (Z.to_nat g) M 0) in
  (d, add32 b (rotl32 f' (nth i shifts 0)), b, c).

Definition block (st : digest) (chunk : list byte) : digest :=
  let M := words 16 chunk in
  let '(a, b, c, d) := st in
  let '(a', b', c', d') := fold_left (step M) (seq 0 64) st in
  (add32 a a', add32 b b', add32 c c', add32 d d').

(** Message padding: 0x80, zeros up to 56 mod 64, then the bit length
    as a 64-bit little-endian integer. *)
Definition padding (len : nat) : list byte :=
  let r := (len mod 64)%nat in
  let zeros := (if r <? 56 then 55 - r else 119 - r)%nat in
  let bits := (Z.of_nat len * 8) mod 2 ^ 64 in
  x80 :: repeat x00 zeros
      ++ le32_bytes (Z.land bits mask32) ++ le32_bytes (Z.shiftr bits 32).

Fixpoint blocks (fuel : nat) (bs : list byte) : list (list byte) :=
  match fuel with
  | O => []
  | S fuel' =>
      match bs with
      | [] => []
      | _ => firstn BlockSize bs :: blocks fuel' (skipn BlockSize bs)
      end
  end.

(** [md5.Sum(data)]: the 16-byte checksum. *)
Definition Sum (data : list byte) : list byte :=
  let padded := data ++ padding (length data) in
  let '(a, b, c, d) := fold_left block (blocks (length padded) padded) init in
  le32_bytes a ++ le32_bytes b ++ le32_bytes c ++ le32_bytes d.

End md5.

(* ================================================================== *)
(** ** Go values used by the transport *)

(** An [error] is represented by its text, [err.Error()]. *)
Definition error : Type := string.

(** [time.Duration] and [time.Time]: signed 64-bit nanosecond counts. *)
Definition Duration : Type := Z.
Definition Time : Type := Z.
Definition Millisecond : Duration := 1000000.
Definition Second : Duration := 1000000000.

(** Two's complement wrap-around of [int64] arithmetic. *)
Definition wrap64 (x : Z) : Z := (x + 2 ^ 63) mod 2 ^ 64 - 2 ^ 63.

(** The result of a call that can return a value, return an error, or
    panic. *)
Inductive Result (A : Type) : Type :=
| Ok (a : A)
| Err (e : error)
| Panic.
Arguments Ok {A} a.
Arguments Err {A} e.
Arguments Panic {A}.

(** [net.IP] is a byte slice of length 4 or 16. *)
Definition IP : Type := list byte.

Record UDPAddr : Type := { ip_of : IP; Port : Z }.

Definition isZeros (p : list byte) : bool := forallb (Byte.eqb x00) p.

(** [net.IP.To4]: the 4-byte form, or nil when the address is not an
    IPv4 address (plain or IPv4-mapped). *)
Definition To4 (ip : IP) : option IP :=
  if (length ip =? 4)%nat then Some ip
  else if ((length ip =? 16)%nat
           && isZeros (firstn 10 ip)
           && Byte.eqb (nth 10 ip x00) xff
           && Byte.eqb (nth 11 ip x00) xff)%bool
       then Some (firstn 4 (skipn 12 ip))
       else None.

Definition IPv4zero : IP := [x00; x00; x00; x00].
Definition IPv6zero : IP := repeat x00 16.

(** [net.IP.IsMulticast]: 224.0.0.0/4, or an IPv6 address that starts
    with 0xff. *)
Definition IsMulticast (ip : IP) : bool :=
  match To4 ip with
  | Some ip4 => (N.land (Byte.to_N (nth 0 ip4 x00)) 240 =? 224)%N
  | None => ((length ip =? 16)%nat && Byte.eqb (nth 0 ip x00) xff)%bool
  end.

(** [bytes.Equal]. *)
Fixpoint bytes_Equal (a b : list byte) : bool :=
  match a, b with
  | [], [] => true
  | x :: a', y :: b' => Byte.eqb x y && bytes_Equal a' b'
  | _, _ => false
  end.

(** [strings.Contains]. *)
Fixpoint strings_Contains (s substr : string) : bool :=
  if String.prefix substr s then true
  else match s with
       | EmptyString => false
       | String _ s' => strings_Contains s' substr
       end.

(** Modelled from the spec: the [messageType] constants are declared in
    a file of the package that is not among the sources; the frame
    layout gives 0x01 for a stream and 0x02 for a packet. *)
Definition messageType : Type := byte.
Definition stream : messageType := x01.
Definition packet : messageType := x02.

(** Modelled from the spec: the two bind-address constants, declared
    next to [messageType]. *)
Definition zeroZeroZeroZero : string := "0.0.0.0".
Definition colonColon : string := "::".

(* ------------------------------------------------------------------ *)
(** *** Configuration *)

Record QuicTransportConfig : Type := {
  BindAddrs : list string;
  BindPort : Z;
  PacketDialTimeout : Duration;
  PacketWriteTimeout : Duration;
  TransportDebug : bool;
  MetricsNamespace : string
}.

Definition with_BindAddrs (c : QuicTransportConfig) (a : list string) :=
  {| BindAddrs := a; BindPort := BindPort c;
     PacketDialTimeout := PacketDialTimeout c;
     PacketWriteTimeout := PacketWriteTimeout c;
     TransportDebug := TransportDebug c;
     MetricsNamespace := MetricsNamespace c |}.

(* ------------------------------------------------------------------ *)
(** *** Inbound connections

    A stream is what its reader will see: the bytes still to come and
    how the stream ends, cleanly ([None], the peer closed it) or with a
    read error. *)

Record Stream : Type := { pending : list byte; fin : option error }.

Record Connection : Type := {
  RemoteAddr : string;
  AcceptStream : error + Stream
}.

(** [io.ReadFull(str, buf)] with [len(buf) = n]: the bytes read and the
    rest of the stream, or the error of a short read. *)
Definition io_ReadFull (str : Stream) (n : nat)
  : error + (list byte * Stream) :=
  if (n <=? length (pending str))%nat then
    inr (firstn n (pending str),
         {| pending := skipn n (pending str); fin := fin str |})
  else
    inl (match fin str with
         | Some e => e
         | None => match pending str with
                   | [] => "EOF"%string
                   | _ => "unexpected EOF"%string
                   end
         end).

(** [io.ReadAll(str)]: everything up to a clean end of stream. *)
Definition io_ReadAll (str : Stream) : error + list byte :=
  match fin str with
  | None => inr (pending str)
  | Some e => inl e
  end.

(** [memberlist.Packet].  Modelled from the spec: the type [addr] of
    the sender address is declared in a file of the package that is not
    among the sources; the address is the string of the bytes read. *)
Record Packet : Type := {
  Buf : list byte;
  From : string;
  Timestamp : Time
}.

(** [quic.Listener], by the address it is bound to. *)
Record Listener : Type := { Addr : UDPAddr }.

(* ------------------------------------------------------------------ *)
(** *** Metrics, log and the trace of external calls *)

Inductive Counter : Type :=
| incomingStreams | outgoingStreams | outgoingStreamErrors
| receivedPackets | receivedPacketsBytes | receivedPacketsErrors
| sentPackets | sentPacketsBytes | sentPacketsErrors
| unknownConnections.

Scheme Equality for Counter.

Inductive Level : Type := Debug | Warn | Error.

(** A logger is a level, or the [noopLogger], which drops what it is
    given. *)
Definition Logger : Type := option Level.
Definition noopLogger : Logger := None.

(** What the transport does to the outside world, in order. *)
Inductive Event : Type :=
| EvLog (lvl : Level) (msg : string)
| EvListenUDP (network : string) (ip : IP) (port : Z)
| EvQuicListen (a : UDPAddr)
| EvListenerClose (l : Listener)
| EvGoQuicListen (l : Listener)
| EvGoHandleConnection (conn : Connection)
| EvSleep (d : Duration)
| EvConnClose (conn : Connection)
| EvTLSDial (timeout : Duration) (network addr : string)
| EvQuicDial (addr : string)
| EvSetDeadline (deadline : Time)
| EvWrite (data : list byte) (n : nat)
| EvClose.

(** The bytes an outbound connection carried: what each [Write]
    reported as written. *)
Fixpoint wire (tr : list Event) : list byte :=
  match tr with
  | [] => []
  | EvWrite data n :: tr' => firstn n data ++ wire tr'
  | _ :: tr' => wire tr'
  end.

(** A dialled [net.Conn], by the answers of its methods given what has
    happened so far. *)
Record Conn : Type := {
  SetDeadline : list Event -> Time -> option error;
  Write : list Event -> list byte -> nat * option error;
  Close : list Event -> option error
}.

(** The environment: the answers of the libraries and of the operating
    system, each given the trace so far. *)
Record Env : Type := {
  Now : list Event -> Time;
  GetTLSConfig : option error;
  ParseIP : string -> option IP;
  (** the kernel binding a UDP socket: an error, or the ephemeral port
      it would pick for a request of port 0 *)
  bind_udp : list Event -> IP -> Z -> error + positive;
  (** the socket options the net package sets on a socket it is asked
      to bind to a multicast address *)
  setDefaultMulticastSockopts : list Event -> option error;
  quic_Listen : list Event -> UDPAddr -> option error;
  tls_DialWithDialer :
    list Event -> Duration -> string -> string -> error + Conn;
  GetPrivateIP : error + string;
  GetFirstAddressOf : error + string;
  UDPAddr_String : UDPAddr -> string;
  strconv_Quote : string -> string;
  strconv_Itoa : Z -> string
}.

(* ------------------------------------------------------------------ *)
(** *** The transport

    The two channels are unbuffered; each is kept as the values sent on
    it so far, a send being complete when its reader takes the value.
    [wg] is the count of the wait group, [shutdown] the atomic flag.
    A prometheus counter is kept as the sum of what was added to it,
    and [trace] records the calls made on the outside world. *)

Record QuicTransport : Type := {
  cfg : QuicTransportConfig;
  packetCh : list Packet;
  connCh : list Connection;
  wg : Z;
  quicListeners : list Listener;
  shutdown : Z;
  advertiseAddr : string;
  counters : Counter -> nat;
  trace : list Event
}.

Definition set_trace (t : QuicTransport) (tr : list Event) :=
  {| cfg := cfg t; packetCh := packetCh t; connCh := connCh t; wg := wg t;
     quicListeners := quicListeners t; shutdown := shutdown t;
     advertiseAddr := advertiseAddr t; counters := counters t;
     trace := tr |}.

Definition set_counters (t : QuicTransport) (c : Counter -> nat) :=
  {| cfg := cfg t; packetCh := packetCh t; connCh := connCh t; wg := wg t;
     quicListeners := quicListeners t; shutdown := shutdown t;
     advertiseAddr := advertiseAddr t; counters := c;
     trace := trace t |}.

Definition set_packetCh (t : QuicTransport) (ch : list Packet) :=
  {| cfg := cfg t; packetCh := ch; connCh := connCh t; wg := wg t;
     quicListeners := quicListeners t; shutdown := shutdown t;
     advertiseAddr := advertiseAddr t; counters := counters t;
     trace := trace t |}.

Definition set_connCh (t : QuicTransport) (ch : list Connection) :=
  {| cfg := cfg t; packetCh := packetCh t; connCh := ch; wg := wg t;
     quicListeners := quicListeners t; shutdown := shutdown t;
     advertiseAddr := advertiseAddr t; counters := counters t;
     trace := trace t |}.

Definition set_wg (t : QuicTransport) (n : Z) :=
  {| cfg := cfg t; packetCh := packetCh t; connCh := connCh t; wg := n;
     quicListeners := quicListeners t; shutdown := shutdown t;
     advertiseAddr := advertiseAddr t; counters := counters t;
     trace := trace t |}.

Definition set_quicListeners (t : QuicTransport) (ls : list Listener) :=
  {| cfg := cfg t; packetCh := packetCh t; connCh := connCh t; wg := wg t;
     quicListeners := ls; shutdown := shutdown t;
     advertiseAddr := advertiseAddr t; counters := counters t;
     trace := trace t |}.

Definition set_shutdown (t : QuicTransport) (s : Z) :=
  {| cfg := cfg t; packetCh := packetCh t; connCh := connCh t; wg := wg t;
     quicListeners := quicListeners t; shutdown := s;
     advertiseAddr := advertiseAddr t; counters := counters t;
     trace := trace t |}.

Definition set_advertiseAddr (t : QuicTransport) (a : string) :=
  {| cfg := cfg t; packetCh := packetCh t; connCh := connCh t; wg := wg t;
     quicListeners := quicListeners t; shutdown := shutdown t;
     advertiseAddr := a; counters := counters t;
     trace := trace t |}.

(* ------------------------------------------------------------------ *)
(** *** Statements: state passing with early [return]

    A computation of [Go R A] runs on the transport and either executes
    a [return r] of the enclosing function ([inl r]) or goes on with a
    value ([inr a]). *)

Definition Go (R A : Type) : Type :=
  QuicTransport -> QuicTransport * (R + A).

Definition ret {R A : Type} (a : A) : Go R A := fun t => (t, inr a).

Definition Return {R A : Type} (r : R) : Go R A := fun t => (t, inl r).

Definition bind {R A B : Type} (m : Go R A) (k : A -> Go R B) : Go R B :=
  fun t =>
    match m t with
    | (t', inl r) => (t', inl r)
    | (t', inr a) => k a t'
    end.

(** Running a function body: falling off the end returns too. *)
Definition run {R : Type} (m : Go R R) (t : QuicTransport)
  : QuicTransport * R :=
  match m t with
  | (t', inl r) => (t', r)
  | (t', inr r) => (t', r)
  end.

(** Calling a function from inside another body. *)
Definition call {R A : Type} (f : QuicTransport -> QuicTransport * A)
  : Go R A :=
  fun t => let (t', a) := f t in (t', inr a).

Declare Scope go_scope.
Delimit Scope go_scope with go.
Notation "x <- m ;; k" := (bind m (fun x => k))
  (at level 61, m at next level, right associativity) : go_scope.
Notation "' p <- m ;; k" := (bind m (fun p => k))
  (at level 61, p pattern, m at next level, right associativity) : go_scope.
Notation "m ;; k" := (bind m (fun _ => k))
  (at level 61, right associativity) : go_scope.
Local Open Scope go_scope.

(** [if err != nil { handler; return }] around a fallible call. *)
Definition try {R A : Type} (res : error + A) (handler : error -> Go R R)
  : Go R A :=
  match res with
  | inr a => ret a
  | inl err => fun t => let (t', r) := run (handler err) t in (t', inl r)
  end.

Definition emit {R : Type} (e : Event) : Go R unit :=
  fun t => (set_trace t (trace t ++ [e]), inr tt).

Definition Add {R : Type} (c : Counter) (n : nat) : Go R unit :=
  fun t =>
    (set_counters t
       (fun c' => if Counter_beq c c' then (counters t c' + n)%nat
                  else counters t c'),
     inr tt).

Definition Inc {R : Type} (c : Counter) : Go R unit := Add c 1.

(** [logger.Log("msg", msg, ...)]; the other key/value pairs are left
    out of the trace. *)
Definition Log {R : Type} (logger : Logger) (msg : string) : Go R unit :=
  match logger with
  | Some lvl => emit (EvLog lvl msg)
  | None => ret tt
  end.

Definition get {R A : Type} (f : QuicTransport -> A) : Go R A :=
  fun t => (t, inr (f t)).

(* ================================================================== *)
(** ** The methods of [QuicTransport] *)

Section Transport.

Variable E : Env.

Definition time_Now {R : Type} : Go R Time :=
  fun t => (t, inr (Now E (trace t))).

(** [t.debugLog()] *)
Definition debugLog (t : QuicTransport) : Logger :=
  if TransportDebug (cfg t) then Some Debug else noopLogger.

Definition debugLog_Log {R : Type} (msg : string) : Go R unit :=
  fun t => Log (debugLog t) msg t.

(** The deferred function of [handleConnection]: the call of
    [conn.Close()] inside it is commented out in the source. *)
Definition handleConnection_deferred (closeConn : bool) (conn : Connection)
  : Go unit unit :=
  if closeConn then
    (* // _ = conn.Close() *)
    ret tt
  else ret tt.

(** The body of [handleConnection]; its result is the value of the
    local [closeConn] when the function is left. *)
Definition handleConnection_body (conn : Connection) : Go bool bool :=
  debugLog_Log "New connection" ;;
  let closeConn := true in
  str <- try (AcceptStream conn)
           (fun err => Log (Some Warn) "failed to accept stream" ;;
                       ret closeConn) ;;
  (* let's read first byte, and determine what to do about this connection *)
  ' (msgType, str) <- try (io_ReadFull str 1)
           (fun err => Log (Some Warn) "failed to read message type" ;;
                       ret closeConn) ;;
  if Byte.eqb (nth 0 msgType x00) stream then
    Inc incomingStreams ;;
    (* hand over this connection to memberlist *)
    let closeConn := false in
    (fun t => (set_connCh t (connCh t ++ [conn]), inr tt)) ;;
    ret closeConn
  else if Byte.eqb (nth 0 msgType x00) packet then
    Inc receivedPackets ;;
    (* before reading packet, read the address *)
    ' (addrLengthBuf, str) <- try (io_ReadFull str 1)
        (fun err =>
           Inc receivedPacketsErrors ;;
           Log (Some Warn)
             "error while reading node address length from packet" ;;
           ret closeConn) ;;
    ' (addrBuf, str) <-
      try (io_ReadFull str (int_of_byte (nth 0 addrLengthBuf x00)))
        (fun err =>
           Inc receivedPacketsErrors ;;
           Log (Some Warn) "error while reading node address from packet" ;;
           ret closeConn) ;;
    (* read the rest to buffer -- this is the "packet" itself *)
    buf <- try (io_ReadAll str)
        (fun err =>
           Inc receivedPacketsErrors ;;
           Log (Some Warn) "error while reading packet data" ;;
           ret closeConn) ;;
    if (length buf <? md5.Size)%nat then
      Inc receivedPacketsErrors ;;
      Log (Some Warn) "not enough data received" ;;
      Return closeConn
    else
      let receivedDigest := skipn (length buf - md5.Size) buf in
      let buf := firstn (length buf - md5.Size) buf in
      let expectedDigest := md5.Sum buf in
      (if negb (bytes_Equal receivedDigest expectedDigest) then
         Inc receivedPacketsErrors ;;
         Log (Some Warn) "packet digest mismatch"
       else ret tt) ;;
      debugLog_Log "Received packet" ;;
      Add receivedPacketsBytes (length buf) ;;
      now <- time_Now ;;
      (fun t =>
         (set_packetCh t
            (packetCh t ++ [ {| Buf := buf;
                                From := string_of_list_byte addrBuf;
                                Timestamp := now |} ]),
          inr tt)) ;;
      ret closeConn
  else
    Inc unknownConnections ;;
    Log (Some Error) "unknown message type" ;;
    ret closeConn.

Definition handleConnection (conn : Connection) (t : QuicTransport)
  : QuicTransport :=
  let (t1, closeConn) := run (handleConnection_body conn) t in
  fst (run (handleConnection_deferred closeConn conn) t1).

(** [t.getConnection(addr, timeout)] *)
Definition getConnection (addr : string) (timeout : Duration)
           (t : QuicTransport) : QuicTransport * (error + Conn) :=
  let network := "udp"%string in
  let res := tls_DialWithDialer E (trace t) timeout network addr in
  (set_trace t (trace t ++ [EvTLSDial timeout network addr]), res).

(** [t.getAdvertisedAddr()] *)
Definition getAdvertisedAddr (t : QuicTransport) : string := advertiseAddr t.

Definition conn_Write {R : Type} (c : Conn) (data : list byte)
  : Go R (nat * option error) :=
  fun t =>
    let res := Write c (trace t) data in
    (set_trace t (trace t ++ [EvWrite data (fst res)]), inr res).

Definition conn_Close {R : Type} (c : Conn) : Go R (option error) :=
  fun t =>
    let res := Close c (trace t) in
    (set_trace t (trace t ++ [EvClose]), inr res).

Definition conn_SetDeadline {R : Type} (c : Conn) (deadline : Time)
  : Go R (option error) :=
  fun t =>
    let res := SetDeadline c (trace t) deadline in
    (set_trace t (trace t ++ [EvSetDeadline deadline]), inr res).

(** [if err != nil { return fmt.Errorf(prefix + "%v", err) }] *)
Definition check {R : Type} (err : option error) (wrap : error -> R)
  : Go R unit :=
  match err with
  | Some e => Return (wrap e)
  | None => ret tt
  end.

(** The body of [writeTo] after the dial; the result pairs the local
    [closed] with the returned error. *)
Definition writeTo_body (c : Conn) (b : list byte) (addr : string)
  : Go (bool * option error) (bool * option error) :=
  let closed := false in
  let digest := md5.Sum b in
  (* Prepare the header *before* setting the deadline on the connection. *)
  let headerBuf := [packet] in
  ourAddr <- get getAdvertisedAddr ;;
  if (255 <? String.length ourAddr)%nat then
    Return (closed, Some "local address too long"%string)
  else
    let headerBuf := headerBuf ++ [byte_of_int (String.length ourAddr)] in
    let headerBuf := headerBuf ++ list_byte_of_string ourAddr in
    timeout <- get (fun t => PacketWriteTimeout (cfg t)) ;;
    (if 0 <? timeout then
       now <- time_Now ;;
       let deadline := now + timeout in
       err <- conn_SetDeadline c deadline ;;
       check err (fun e => (closed, Some ("setting deadline: " ++ e)%string))
     else ret tt) ;;
    ' (_, err) <- conn_Write c headerBuf ;;
    check err (fun e => (closed, Some ("sending local address: " ++ e)%string)) ;;
    ' (n, err) <- conn_Write c b ;;
    check err (fun e => (closed, Some ("sending data: " ++ e)%string)) ;;
    if negb (n =? length b)%nat then
      Return (closed, Some "sending data: short write"%string)
    else
      (* Append digest. *)
      ' (n, err) <- conn_Write c digest ;;
      check err (fun e => (closed, Some ("digest: " ++ e)%string)) ;;
      if negb (n =? length digest)%nat then
        Return (closed, Some "digest: short write"%string)
      else
        let closed := true in
        err <- conn_Close c ;;
        check err (fun e => (closed, Some ("close: " ++ e)%string)) ;;
        debugLog_Log "WriteTo: packet sent" ;;
        ret (closed, None).

(** [t.writeTo(b, addr)]: the dial, the body, and the deferred close. *)
Definition writeTo (b : list byte) (addr : string) (t : QuicTransport)
  : QuicTransport * option error :=
  match getConnection addr (PacketDialTimeout (cfg t)) t with
  | (t1, inl err) => (t1, Some err)
  | (t1, inr c) =>
      let '(t2, (closed, err)) := run (writeTo_body c b addr) t1 in
      if negb closed then
        (* If we still need to close, then there was another error. *)
        (fst (run (conn_Close (R := option error) c) t2), err)
      else (t2, err)
  end.

(** [t.WriteTo(b, addr)] *)
Definition WriteTo (b : list byte) (addr : string)
  : QuicTransport -> QuicTransport * (Time * option error) :=
  run (
    Inc sentPackets ;;
    Add sentPacketsBytes (length b) ;;
    err <- call (writeTo b addr) ;;
    match err with
    | Some e =>
        Inc sentPacketsErrors ;;
        dbg <- get debugLog ;;
        let logLevel :=
          if strings_Contains e "connection refused" then dbg
          else Some Warn in
        Log logLevel "WriteTo failed" ;;
        now <- time_Now ;;
        Return (now, None)
    | None =>
        now <- time_Now ;;
        Return (now, None)
    end).

(** [t.DialTimeout(addr, timeout)] *)
Definition DialTimeout (addr : string) (timeout : Duration)
  : QuicTransport -> QuicTransport * (option Conn * option error) :=
  run (
    Inc outgoingStreams ;;
    res <- call (getConnection addr timeout) ;;
    c <- try res (fun err => Inc outgoingStreamErrors ;; ret (None, Some err)) ;;
    ' (_, err) <- conn_Write c [stream] ;;
    match err with
    | Some e =>
        Inc outgoingStreamErrors ;;
        conn_Close c ;;
        Return (None, Some e)
    | None => Return (Some c, None)
    end).

(* ------------------------------------------------------------------ *)
(** *** Shutdown and the accept loop *)

(** [t.Shutdown()]: the flag, then every listener is closed.  The final
    [t.wg.Wait()] only blocks the caller and changes nothing. *)
Definition Shutdown (t : QuicTransport) : QuicTransport * option error :=
  let t1 := set_shutdown t 1 in
  let t2 :=
    fold_left (fun t' ln => set_trace t' (trace t' ++ [EvListenerClose ln]))
              (quicListeners t1) t1 in
  (t2, None).

Definition baseDelay : Duration := 5 * Millisecond.
Definition maxDelay : Duration := 1 * Second.

(** What the goroutine of [quicListen] observes, in order: the results
    of its calls of [Accept], and the moments another goroutine stores
    1 in [t.shutdown]. *)
Inductive Tick : Type :=
| AcceptReturns (res : error + Connection)
| ShutdownStored.

Inductive LoopState : Type :=
| Accepting (loopDelay : Duration)   (** blocked in [Accept] *)
| Exited.                            (** left the loop by [break] *)

(** One iteration of the [for] loop of [quicListen], from the return of
    [Accept] on. *)
Definition quicListen_iteration (res : error + Connection)
           (loopDelay : Duration) : Go LoopState LoopState :=
  match res with
  | inl err =>
      s <- get shutdown ;;
      if s =? 1 then Return Exited
      else
        let loopDelay :=
          if loopDelay =? 0 then baseDelay else wrap64 (loopDelay * 2) in
        let loopDelay :=
          if maxDelay <? loopDelay then maxDelay else loopDelay in
        Log (Some Error) "Error accepting Quic connection" ;;
        emit (EvSleep loopDelay) ;;
        ret (Accepting loopDelay)
  | inr conn =>
      (* No error, reset loop delay *)
      let loopDelay := 0 in
      emit (EvGoHandleConnection conn) ;;
      ret (Accepting loopDelay)
  end.

Fixpoint quicListen_loop (script : list Tick) (loopDelay : Duration)
         (t : QuicTransport) : QuicTransport * LoopState :=
  match script with
  | [] => (t, Accepting loopDelay)
  | ShutdownStored :: script' =>
      quicListen_loop script' loopDelay (set_shutdown t 1)
  | AcceptReturns res :: script' =>
      match run (quicListen_iteration res loopDelay) t with
      | (t', Accepting loopDelay') => quicListen_loop script' loopDelay' t'
      | (t', Exited) => (t', Exited)
      end
  end.

(** [t.quicListen(quicLn)] run against a script; [wg.Done()] is deferred
    to the exit of the loop. *)
Definition quicListen (quicLn : Listener) (script : list Tick)
           (t : QuicTransport) : QuicTransport * LoopState :=
  match quicListen_loop script 0 t with
  | (t', Exited) => (set_wg t' (wg t' - 1), Exited)
  | (t', st) => (t', st)
  end.

(* ------------------------------------------------------------------ *)
(** *** Construction *)

(** [net.ListenUDP(network, &net.UDPAddr{IP: ip, Port: port})]; the
    result is the local address of the socket.  For the "udp4" network
    the socket is of the IPv4 family.  Asked for a multicast address,
    the net package sets the multicast socket options and binds the
    wildcard address of the family, 0.0.0.0, in its place; the address
    to bind must then be an IPv4 one ([ip.To4() != nil], an empty IP
    standing for 0.0.0.0) before it reaches the kernel. *)
Definition net_ListenUDP {R : Type} (network : string) (ip : IP) (port : Z)
  : Go R (error + UDPAddr) :=
  fun t =>
    let t' := set_trace t (trace t ++ [EvListenUDP network ip port]) in
    let bound (ip' : IP) :=
      match bind_udp E (trace t) ip' port with
      | inl err => inl err
      | inr ephemeral =>
          inr {| ip_of := ip';
                 Port := if port =? 0 then Z.pos ephemeral else port |}
      end in
    (t',
     inr (if String.eqb network "udp4" then
            match (if IsMulticast ip
                   then setDefaultMulticastSockopts E (trace t)
                   else None) with
            | Some err => inl err
            | None =>
                let ip := if IsMulticast ip then IPv4zero else ip in
                match To4 (match ip with [] => IPv4zero | _ => ip end) with
                | None => inl "non-IPv4 address"%string
                | Some ip4 => bound ip4
                end
            end
          else bound ip)).

(** [quic.Transport{Conn: udpConn}.Listen(tlsConfig, &quic.Config{})];
    the listener reports the local address of its socket. *)
Definition quic_Transport_Listen {R : Type} (udpConn : UDPAddr)
  : Go R (error + Listener) :=
  fun t =>
    (set_trace t (trace t ++ [EvQuicListen udpConn]),
     inr (match quic_Listen E (trace t) udpConn with
          | Some err => inl err
          | None => inr {| Addr := udpConn |}
          end)).

Definition panic_index : error :=
  "panic: runtime error: index out of range"%string.

(** The loop that builds the listeners, with the local [port]. *)
Fixpoint NewQuicTransport_listeners (addrs : list string) (port : Z)
  : Go (option error) unit :=
  match addrs with
  | [] => ret tt
  | addr :: addrs' =>
      match ParseIP E addr with
      | None =>
          Return (Some ("could not parse bind addr " ++ strconv_Quote E addr
                          ++ " as IP address")%string)
      | Some ip =>
          (* TODO: support "udp6" *)
          res <- net_ListenUDP "udp4" ip port ;;
          udpConn <- try res (fun err =>
            ret (Some ("failed to start UDP listener on "
                         ++ strconv_Quote E addr ++ " port "
                         ++ strconv_Itoa E port ++ ": " ++ err)%string)) ;;
          res <- quic_Transport_Listen udpConn ;;
          quickLn <- try res (fun err =>
            ret (Some ("failed to start TLS Quic listener on "
                         ++ strconv_Quote E addr ++ " port "
                         ++ strconv_Itoa E port ++ ": " ++ err)%string)) ;;
          (fun t => (set_quicListeners t (quicListeners t ++ [quickLn]),
                     inr tt)) ;;
          (* If the config port given was zero, use the first Quic
             listener to pick an available port and then apply that to
             everything else. *)
          let port := if port =? 0 then Port (Addr quickLn) else port in
          NewQuicTransport_listeners addrs' port
      end
  end.

(** The loop that starts one [quicListen] goroutine per bind address. *)
Fixpoint NewQuicTransport_start (i n : nat) : Go (option error) unit :=
  match n with
  | O => ret tt
  | S n' =>
      (fun t => (set_wg t (wg t + 1), inr tt)) ;;
      ls <- get quicListeners ;;
      match nth_error ls i with
      | None => Return (Some panic_index)
      | Some ln =>
          emit (EvGoQuicListen ln) ;;
          NewQuicTransport_start (S i) n'
      end
  end.

(** [NewQuicTransport(config, logger, registerer)].  The transport of
    the result is the object the constructor worked on; the Go function
    returns it only when the error is nil. *)
Definition NewQuicTransport (config : QuicTransportConfig)
  : QuicTransport * option error :=
  let config :=
    if (length (BindAddrs config) =? 0)%nat
    then with_BindAddrs config [zeroZeroZeroZero] else config in
  let t := {| cfg := config; packetCh := []; connCh := []; wg := 0;
              quicListeners := []; shutdown := 0;
              advertiseAddr := ""; counters := fun _ => O;
              trace := [] |} in
  match GetTLSConfig E with
  | Some err => (t, Some ("unable to create TLS config: " ++ err)%string)
  | None =>
      let (t1, err) :=
        run (NewQuicTransport_listeners (BindAddrs config) (BindPort config) ;;
             NewQuicTransport_start 0 (length (BindAddrs config)) ;;
             ret None) t in
      (* Clean up listeners if there's an error. *)
      match err with
      | Some _ => (fst (Shutdown t1), err)
      | None => (t1, None)
      end
  end.

(* ------------------------------------------------------------------ *)
(** *** Advertised address *)

(** [t.GetAutoBindPort()]; [None] is the panic of indexing an empty
    listener slice. *)
Definition GetAutoBindPort (t : QuicTransport) : option Z :=
  match quicListeners t with
  | ln :: _ => Some (Port (Addr ln))
  | [] => None
  end.

(** [t.setAdvertisedAddr(advertiseAddr, advertisePort)] *)
Definition setAdvertisedAddr {R : Type} (a : IP) (p : Z) : Go R unit :=
  fun t =>
    (set_advertiseAddr t (UDPAddr_String E {| ip_of := a; Port := p |}),
     inr tt).

Definition parse_or {R : Type} (s : string) (err : error) : Go (Result R) IP :=
  match ParseIP E s with
  | Some a => ret a
  | None => Return (Err err)
  end.

(** [t.FinalAdvertiseAddr(ip, port)] *)
Definition FinalAdvertiseAddr (ip : string) (port : Z)
  : QuicTransport -> QuicTransport * Result (IP * Z) :=
  run (
    ' (advertiseAddr, advertisePort) <-
      (if negb (String.eqb ip "") then
         (* If they've supplied an address, use that. *)
         a <- parse_or ip
                ("failed to parse advertise address "
                   ++ strconv_Quote E ip)%string ;;
         ret (a, port)
       else
         addrs <- get (fun t => BindAddrs (cfg t)) ;;
         first <- match addrs with
                  | a :: _ => ret a
                  | [] => Return Panic
                  end ;;
         a <- (if String.eqb first zeroZeroZeroZero then
                 ip <- try (GetPrivateIP E) (fun err =>
                   ret (Err ("failed to get interface addresses: "
                               ++ err)%string)) ;;
                 if String.eqb ip "" then
                   Return (Err "no private IP address found, and explicit IP not provided"%string)
                 else
                   parse_or ip ("failed to parse advertise address "
                                  ++ strconv_Quote E ip)%string
               else if String.eqb first colonColon then
                 inet6Ip <- try (GetFirstAddressOf E) (fun err =>
                   ret (Err ("failed to get private inet6 address: "
                               ++ err)%string)) ;;
                 parse_or inet6Ip ("failed to parse inet6 advertise address "
                                     ++ strconv_Quote E ip)%string
               else
                 (* Use the IP that we're bound to, based on the first
                    Quic listener. *)
                 ls <- get quicListeners ;;
                 match ls with
                 | ln :: _ => ret (ip_of (Addr ln))
                 | [] => Return Panic
                 end) ;;
         (* Use the port we are bound to. *)
         p <- get GetAutoBindPort ;;
         match p with
         | Some p => ret (a, p)
         | None => Return Panic
         end) ;;
    Log (Some Debug) "FinalAdvertiseAddr" ;;
    setAdvertisedAddr advertiseAddr advertisePort ;;
    Return (Ok (advertiseAddr, advertisePort))).

End Transport.

(* ================================================================== *)
(** ** Notions used in the statements *)

(** The events of a [t.debugLog().Log(...)]. *)
Definition dbg (t : QuicTransport) (msg : string) : list Event :=
  if TransportDebug (cfg t) then [EvLog Debug msg] else [].

(** The test of the digest in [handleConnection]. *)
Definition mismatch (dg payload : list byte) : bool :=
  negb (bytes_Equal dg (md5.Sum payload)).

Definition emits {R A : Type} (P : Event -> Prop) (m : Go R A) : Prop :=
  forall t, exists evs, trace (fst (m t)) = trace t ++ evs /\ Forall P evs.

(** Events that are log lines. *)
Definition is_log (e : Event) : Prop :=
  match e with EvLog _ _ => True | _ => False end.

(** A connection on which every call succeeds and every write is
    complete. *)
Definition healthy (c : Conn) : Prop :=
  (forall tr d, SetDeadline c tr d = None)
  /\ (forall tr data, Write c tr data = (length data, None))
  /\ (forall tr, Close c tr = None).

(** The bytes of a packet frame. *)
Definition frame_of (ourAddr : string) (b : list byte) : list byte :=
  packet :: byte_of_int (String.length ourAddr)
         :: list_byte_of_string ourAddr ++ b ++ md5.Sum b.

(** The part of the transport [writeTo] reads. *)
Definition core (t : QuicTransport) : QuicTransport :=
  {| cfg := cfg t; packetCh := []; connCh := []; wg := 0;
     quicListeners := []; shutdown := 0;
     advertiseAddr := advertiseAddr t; counters := fun _ => O;
     trace := trace t |}.

(** Events that open an outbound connection. *)
Definition not_dial (e : Event) : Prop :=
  match e with
  | EvTLSDial _ _ _ | EvQuicDial _ => False
  | _ => True
  end.

(** The errors of the listener loop. *)
Definition err_parse (E : Env) (addr : string) : error :=
  ("could not parse bind addr " ++ strconv_Quote E addr
     ++ " as IP address")%string.

Definition err_udp (E : Env) (addr : string) (port : Z) (err : error)
  : error :=
  ("failed to start UDP listener on " ++ strconv_Quote E addr ++ " port "
     ++ strconv_Itoa E port ++ ": " ++ err)%string.

Definition err_quic (E : Env) (addr : string) (port : Z) (err : error)
  : error :=
  ("failed to start TLS Quic listener on " ++ strconv_Quote E addr
     ++ " port " ++ strconv_Itoa E port ++ ": " ++ err)%string.

(** The address a "udp4" socket is bound to when [net.ListenUDP] is
    asked for [ip]: 0.0.0.0 for a multicast address, the IPv4 form of
    [ip] otherwise, and none when [ip] has no IPv4 form. *)
Definition udp4_ip (ip : IP) : option IP :=
  let ip := if IsMulticast ip then IPv4zero else ip in
  To4 (match ip with [] => IPv4zero | _ => ip end).

(** The answer of the kernel for that socket: the multicast options,
    when [ip] is a multicast address, and then the bind of [ip4]. *)
Definition udp4_bind (E : Env) (tr : list Event) (ip ip4 : IP) (port : Z)
  : error + positive :=
  match (if IsMulticast ip then setDefaultMulticastSockopts E tr
         else None) with
  | Some err => inl err
  | None => bind_udp E tr ip4 port
  end.

(** The local address of a socket bound for a request of [port]. *)
Definition bound_addr (ip4 : IP) (port : Z) (ephemeral : positive) : UDPAddr :=
  {| ip_of := ip4; Port := if port =? 0 then Z.pos ephemeral else port |}.

(** Every listener in the list was made by [quic.Transport.Listen]. *)
Definition quic_listeners (t : QuicTransport) : Prop :=
  forall ln, In ln (quicListeners t) -> In (EvQuicListen (Addr ln)) (trace t).

(** The configuration the constructor works with: an empty list of
    bind addresses stands for 0.0.0.0. *)
Definition effective_config (config : QuicTransportConfig)
  : QuicTransportConfig :=
  if (length (BindAddrs config) =? 0)%nat
  then with_BindAddrs config [zeroZeroZeroZero] else config.

(** The transport before any listener is built. *)
Definition fresh (config : QuicTransportConfig) : QuicTransport :=
  {| cfg := config; packetCh := []; connCh := []; wg := 0;
     quicListeners := []; shutdown := 0;
     advertiseAddr := ""; counters := fun _ => O;
     trace := [] |}.

(** Events of the constructor that start a goroutine or close a
    listener. *)
Definition is_go_or_close (e : Event) : Prop :=
  match e with
  | EvGoQuicListen _ | EvListenerClose _ => True
  | _ => False
  end.

(** Events of the listener loop; every socket is opened on "udp4". *)
Definition is_udp4_listen (e : Event) : Prop :=
  match e with
  | EvListenUDP network _ _ => network = "udp4"%string
  | EvQuicListen _ => True
  | _ => False
  end.

(** The ports asked of [net.ListenUDP], in order. *)
Fixpoint requested_ports (tr : list Event) : list Z :=
  match tr with
  | [] => []
  | EvListenUDP _ _ port :: tr' => port :: requested_ports tr'
  | _ :: tr' => requested_ports tr'
  end.


(** The durations the loop sleeps, in order. *)
Fixpoint sleeps (tr : list Event) : list Duration :=
  match tr with
  | [] => []
  | EvSleep d :: tr' => d :: sleeps tr'
  | _ :: tr' => sleeps tr'
  end.

(** The delay after [k + 1] consecutive errors: 5 ms doubled [k] times,
    capped at 1 s. *)
Definition backoff (k : nat) : Duration :=
  Z.min (5 * Millisecond * 2 ^ Z.of_nat k) (1 * Second).

(** The value of [loopDelay] after [k] consecutive errors. *)
Definition delay_after (k : nat) : Duration :=
  match k with
  | O => 0
  | S k' => backoff k'
  end.

(** A script of consecutive [Accept] errors. *)
Definition failing (errs : list error) : list Tick :=
  map (fun err => AcceptReturns (inl err)) errs.

Definition within_bounds (d : Duration) : Prop :=
  5 * Millisecond <= d <= 1 * Second.

(** The number of [Close] calls on dialled connections. *)
Fixpoint closes (tr : list Event) : nat :=
  match tr with
  | [] => O
  | EvClose :: tr' => S (closes tr')
  | _ :: tr' => closes tr'
  end.

(** The deadlines set on dialled connections, in order. *)
Fixpoint deadlines (tr : list Event) : list Time :=
  match tr with
  | [] => []
  | EvSetDeadline d :: tr' => d :: deadlines tr'
  | _ :: tr' => deadlines tr'
  end.

(** The connections given to a [handleConnection] goroutine, in order. *)
Fixpoint spawned (tr : list Event) : list Connection :=
  match tr with
  | [] => []
  | EvGoHandleConnection conn :: tr' => conn :: spawned tr'
  | _ :: tr' => spawned tr'
  end.

(** The connections a script of [Accept] results carries, in order. *)
Fixpoint accepted (script : list Tick) : list Connection :=
  match script with
  | [] => []
  | AcceptReturns (inr conn) :: script' => conn :: accepted script'
  | _ :: script' => accepted script'
  end.

(** The number of [Accept] errors of a script. *)
Fixpoint accept_errors (script : list Tick) : nat :=
  match script with
  | [] => O
  | AcceptReturns (inl _) :: script' => S (accept_errors script')
  | _ :: script' => accept_errors script'
  end.

(** The listeners given to a [quicListen] goroutine, in order. *)
Fixpoint started (tr : list Event) : list Listener :=
  match tr with
  | [] => []
  | EvGoQuicListen ln :: tr' => ln :: started tr'
  | _ :: tr' => started tr'
  end.

(** The listeners closed, in order. *)
Fixpoint closed_listeners (tr : list Event) : list Listener :=
  match tr with
  | [] => []
  | EvListenerClose ln :: tr' => ln :: closed_listeners tr'
  | _ :: tr' => closed_listeners tr'
  end.

(** The counters of the inbound side. *)
Definition inbound_counter (c : Counter) : bool :=
  match c with
  | incomingStreams | receivedPackets | receivedPacketsBytes
  | receivedPacketsErrors | unknownConnections => true
  | _ => false
  end.

(** The sum of the payload lengths of a list of packets. *)
Definition payload_bytes (ps : list Packet) : nat :=
  list_sum (map (fun p => length (Buf p)) ps).

(* ================================================================== *)
(** ** Concrete inputs *)

Definition okConn : Conn :=
  {| SetDeadline := fun _ _ => None;
     Write := fun _ data => (length data, None);
     Close := fun _ => None |}.

Definition loopback : IP := [x7f; x00; x00; x01].

(** An environment in which every call succeeds; its [strconv_Quote]
    leaves the quotation marks out. *)
Definition env_ok : Env :=
  {| Now := fun tr => 1700000000 + Z.of_nat (length tr);
     GetTLSConfig := None;
     ParseIP := fun s =>
       if String.eqb s "::" then Some IPv6zero
       else if String.eqb s "127.0.0.1" then Some loopback
       else if String.eqb s "0.0.0.0" then Some IPv4zero
       else None;
     bind_udp := fun _ _ _ => inr 40000%positive;
     setDefaultMulticastSockopts := fun _ => None;
     quic_Listen := fun _ _ => None;
     tls_DialWithDialer := fun _ _ _ _ => inr okConn;
     GetPrivateIP := inr "10.0.0.1"%string;
     GetFirstAddressOf := inl "no address found"%string;
     UDPAddr_String := fun _ => "127.0.0.1:7946"%string;
     strconv_Quote := fun s => s;
     strconv_Itoa := fun n => NilZero.string_of_int (Z.to_int n) |}.

(** The same environment, with a peer that refuses every dial. *)
Definition env_refused : Env :=
  {| Now := Now env_ok;
     GetTLSConfig := None;
     ParseIP := ParseIP env_ok;
     bind_udp := bind_udp env_ok;
     setDefaultMulticastSockopts := setDefaultMulticastSockopts env_ok;
     quic_Listen := quic_Listen env_ok;
     tls_DialWithDialer := fun _ _ _ _ =>
       inl "dial udp 10.0.0.2:7946: connect: connection refused"%string;
     GetPrivateIP := GetPrivateIP env_ok;
     GetFirstAddressOf := GetFirstAddressOf env_ok;
     UDPAddr_String := UDPAddr_String env_ok;
     strconv_Quote := strconv_Quote env_ok;
     strconv_Itoa := strconv_Itoa env_ok |}.

Definition cfg_demo : QuicTransportConfig :=
  {| BindAddrs := ["127.0.0.1"%string];
     BindPort := 7946;
     PacketDialTimeout := 2 * Second;
     PacketWriteTimeout := 5 * Second;
     TransportDebug := false;
     MetricsNamespace := "" |}.

Definition t_demo : QuicTransport :=
  {| cfg := cfg_demo; packetCh := []; connCh := []; wg := 1;
     quicListeners := [ {| Addr := {| ip_of := loopback; Port := 7946 |} |} ];
     shutdown := 0;
     advertiseAddr := "127.0.0.1:7946";
     counters := fun _ => O;
     trace := [] |}.

Fixpoint string_repeat (c : ascii) (n : nat) : string :=
  match n with
  | O => EmptyString
  | S n' => String c (string_repeat c n')
  end.

(** A transport whose cached advertised address has 256 bytes. *)
Definition t_long : QuicTransport :=
  set_advertiseAddr t_demo (string_repeat "a" 256).

Definition hi : list byte := [x68; x69].

(** A frame with an empty address, an empty payload and sixteen zero
    bytes in the place of the digest. *)
Definition bad_frame : list byte := [x02; x00] ++ repeat x00 16.

(** An accepted connection whose first stream carries [bytes] and is
    then closed by the peer. *)
Definition conn_of (remote : string) (bytes : list byte) : Connection :=
  {| RemoteAddr := remote;
     AcceptStream := inr {| pending := bytes; fin := None |} |}.

Definition a_peer : string := "10.0.0.2:51234".

(** Two bind addresses and the bind port left to the kernel. *)
Definition cfg_auto : QuicTransportConfig :=
  {| BindAddrs := ["127.0.0.1"; "0.0.0.0"]%string;
     BindPort := 0;
     PacketDialTimeout := 2 * Second;
     PacketWriteTimeout := 5 * Second;
     TransportDebug := false;
     MetricsNamespace := "" |}.

(** An IPv4 and an IPv6 bind address. *)
Definition cfg_v6 : QuicTransportConfig :=
  with_BindAddrs cfg_demo ["127.0.0.1"; "::"]%string.




(* ================================================================== *)
(** * Properties *)

(** ** The digest and the byte conversions *)

Example md5_empty :
  md5.Sum [] =
  [ xd4; x1d; x8c; xd9; x8f; x00; xb2; x04;
    xe9; x80; x09; x98; xec; xf8; x42; x7e ].
Proof. vm_compute. reflexivity. Qed.

Example md5_abc :
  md5.Sum [ x61; x62; x63 ] =
  [ x90; x01; x50; x98; x3c; xd2; x4f; xb0;
    xd6; x96; x3f; x7d; x28; xe1; x7f; x72 ].
Proof. vm_compute. reflexivity. Qed.

Lemma md5_Sum_length (b : list byte) : length (md5.Sum b) = md5.Size.
Proof.
  unfold md5.Sum.
  destruct (fold_left md5.block _ md5.init) as [[[a b'] c] d].
  reflexivity.
Qed.

Lemma int_of_byte_of_int (n : nat) :
  (n <= 255)%nat -> int_of_byte (byte_of_int n) = n.
Proof.
  intros Hn. unfold int_of_byte, byte_of_int, byte_of_Z.
  rewrite Z.mod_small by lia.
  destruct (Byte.of_N (Z.to_N (Z.of_nat n))) as [b|] eqn:Hb.
  - apply Byte.to_of_N in Hb. rewrite Hb. lia.
  - apply Byte.of_N_None_iff in Hb. lia.
Qed.

Lemma bytes_Equal_spec (a b : list byte) : bytes_Equal a b = true <-> a = b.
Proof.
  revert b. induction a as [|x a IH]; intros [|y b]; simpl; split;
    try congruence; try reflexivity.
  - intros H. apply andb_prop in H as [Hxy Hab].
    apply Byte.byte_dec_bl in Hxy. apply IH in Hab. congruence.
  - intros H. injection H as Hxy Hab. subst.
    rewrite (Byte.byte_dec_lb eq_refl). simpl. now apply IH.
Qed.

Lemma length_list_byte_of_string (s : string) :
  length (list_byte_of_string s) = String.length s.
Proof.
  unfold list_byte_of_string. rewrite length_map.
  induction s; simpl; congruence.
Qed.

(** ** Reading a frame *)

#[local] Arguments io_ReadFull : simpl never.
#[local] Arguments md5.Sum : simpl never.
#[local] Arguments md5.Size : simpl never.
#[local] Arguments byte_of_int : simpl never.
#[local] Arguments int_of_byte : simpl never.
#[local] Arguments Counter_beq : simpl never.
#[local] Arguments bytes_Equal : simpl never.
#[local] Arguments strings_Contains : simpl never.
#[local] Arguments string_of_list_byte : simpl never.
#[local] Arguments list_byte_of_string : simpl never.
#[local] Arguments Nat.ltb : simpl never.
#[local] Arguments Nat.leb : simpl never.

Lemma io_ReadFull_cons (x : byte) (l : list byte) (f : option error) :
  io_ReadFull {| pending := x :: l; fin := f |} 1
  = inr ([x], {| pending := l; fin := f |}).
Proof. reflexivity. Qed.

Lemma io_ReadFull_app (a b : list byte) (f : option error) :
  io_ReadFull {| pending := a ++ b; fin := f |} (length a)
  = inr (a, {| pending := b; fin := f |}).
Proof.
  unfold io_ReadFull. simpl.
  rewrite length_app.
  replace (length a <=? length a + length b)%nat with true
    by (symmetry; apply Nat.leb_le; lia).
  rewrite firstn_app, Nat.sub_diag, firstn_all, skipn_app, Nat.sub_diag,
    skipn_all.
  simpl. now rewrite app_nil_r.
Qed.

Lemma split_digest (payload dg : list byte) :
  length dg = md5.Size ->
  (length (payload ++ dg) <? md5.Size)%nat = false
  /\ skipn (length (payload ++ dg) - md5.Size) (payload ++ dg) = dg
  /\ firstn (length (payload ++ dg) - md5.Size) (payload ++ dg) = payload.
Proof.
  intros Hd. rewrite length_app, Hd.
  replace (length payload + md5.Size - md5.Size)%nat
    with (length payload) by lia.
  split; [apply Nat.ltb_ge; lia|].
  rewrite skipn_app, firstn_app, Nat.sub_diag, skipn_all, firstn_all.
  simpl. now rewrite app_nil_r.
Qed.

Ltac go_unfold :=
  unfold check, conn_Write, conn_Close, conn_SetDeadline, debugLog_Log,
    debugLog, noopLogger, Inc, Log in *;
  unfold run, bind, try, ret, Return, Add, emit, get, call,
    time_Now in *.

Ltac break_match :=
  match goal with
  | |- context [match ?x with _ => _ end] =>
      lazymatch x with
      | context [match _ with _ => _ end] => fail
      | _ => destruct x eqn:?
      end
  end.

Ltac counters_done :=
  unfold Counter_beq; cbn; rewrite ?app_nil_r; try reflexivity; try lia.

(** What [handleConnection] does with a complete packet frame: address
    [a], payload, and sixteen trailing bytes [dg]. *)
Lemma handleConnection_frame E conn t a payload dg :
  AcceptStream conn =
    inr {| pending := packet :: byte_of_int (length a) :: a ++ payload ++ dg;
           fin := None |} ->
  (length a <= 255)%nat -> length dg = md5.Size ->
  let r := handleConnection E conn t in
  (exists ts, packetCh r = packetCh t ++
     [{| Buf := payload; From := string_of_list_byte a; Timestamp := ts |}])
  /\ counters r receivedPacketsErrors =
       (counters t receivedPacketsErrors
        + if mismatch dg payload then 1 else 0)%nat
  /\ counters r receivedPackets = S (counters t receivedPackets)
  /\ counters r receivedPacketsBytes =
       (counters t receivedPacketsBytes + length payload)%nat
  /\ trace r = trace t ++ dbg t "New connection"
                 ++ (if mismatch dg payload
                     then [EvLog Warn "packet digest mismatch"] else [])
                 ++ dbg t "Received packet"
  /\ connCh r = connCh t.
Proof.
  intros Hs Ha Hd.
  destruct (split_digest payload dg Hd) as (Hlt & Hsk & Hfi).
  unfold handleConnection, handleConnection_deferred, handleConnection_body,
    dbg, mismatch.
  rewrite Hs. go_unfold.
  destruct (TransportDebug (cfg t)) eqn:Hdbg;
    cbn; rewrite ?io_ReadFull_cons; cbn;
    rewrite int_of_byte_of_int, io_ReadFull_app by assumption;
    cbn; rewrite Hlt, Hsk, Hfi;
    destruct (bytes_Equal dg (md5.Sum payload)); cbn; rewrite ?Hdbg; cbn;
    rewrite <- ?app_assoc; cbn;
    repeat split; eauto; counters_done.
Qed.

(** ** Which events a computation adds to the trace *)

Section Emits.

Context {R : Type} (P : Event -> Prop).

Lemma emits_ret {A : Type} (a : A) : emits P (ret (R := R) a).
Proof. intros t. exists []. cbn. now rewrite app_nil_r. Qed.

Lemma emits_Return {A : Type} (r : R) : emits P (Return (A := A) r).
Proof. intros t. exists []. cbn. now rewrite app_nil_r. Qed.

Lemma emits_bind {A B : Type} (m : Go R A) (k : A -> Go R B) :
  emits P m -> (forall a, emits P (k a)) -> emits P (bind m k).
Proof.
  intros Hm Hk t. unfold bind.
  destruct (Hm t) as (evs & Ht & Hevs).
  destruct (m t) as [t1 [r|a]]; cbn in *.
  - now exists evs.
  - destruct (Hk a t1) as (evs' & Ht' & Hevs').
    exists (evs ++ evs'). rewrite Ht', Ht, app_assoc. split; [reflexivity|].
    apply Forall_app; now split.
Qed.

Lemma emits_emit (e : Event) : P e -> emits P (emit (R := R) e).
Proof. intros He t. exists [e]. cbn. split; [reflexivity|]. now constructor. Qed.

Lemma emits_Log (logger : Logger) (msg : string) :
  (forall lvl, P (EvLog lvl msg)) -> emits P (Log (R := R) logger msg).
Proof.
  intros Hl. destruct logger; cbn; [apply emits_emit, Hl | apply emits_ret].
Qed.

Lemma emits_debugLog_Log (msg : string) :
  (forall lvl, P (EvLog lvl msg)) -> emits P (debugLog_Log (R := R) msg).
Proof. intros Hl t. unfold debugLog_Log. now apply emits_Log. Qed.

Lemma emits_Add (c : Counter) (n : nat) : emits P (Add (R := R) c n).
Proof. intros t. exists []. cbn. now rewrite app_nil_r. Qed.

Lemma emits_Inc (c : Counter) : emits P (Inc (R := R) c).
Proof. apply emits_Add. Qed.

Lemma emits_get {A : Type} (f : QuicTransport -> A) : emits P (get (R := R) f).
Proof. intros t. exists []. cbn. now rewrite app_nil_r. Qed.

Lemma emits_time_Now (E : Env) : emits P (time_Now (R := R) E).
Proof. intros t. exists []. cbn. now rewrite app_nil_r. Qed.

(** A step that leaves the trace alone. *)
Lemma emits_quiet {A : Type} (f : QuicTransport -> QuicTransport) (a : A) :
  (forall t, trace (f t) = trace t) ->
  emits P (fun t => (f t, inr (A := R) a)).
Proof. intros Hf t. exists []. cbn. now rewrite Hf, app_nil_r. Qed.

Lemma emits_check (err : option error) (wrap : error -> R) :
  emits P (check err wrap).
Proof. destruct err; [apply emits_Return | apply emits_ret]. Qed.

End Emits.

Lemma emits_run {R : Type} (P : Event -> Prop) (m : Go R R) :
  emits P m ->
  forall t, exists evs, trace (fst (run m t)) = trace t ++ evs /\ Forall P evs.
Proof.
  intros Hm t. unfold run. destruct (Hm t) as (evs & Ht & Hevs).
  destruct (m t) as [t1 [r|r]]; now exists evs.
Qed.

Lemma emits_try {R A : Type} (P : Event -> Prop) (res : error + A)
      (handler : error -> Go R R) :
  (forall err, emits P (handler err)) -> emits P (try res handler).
Proof.
  intros Hh. destruct res as [err|a]; cbn; [|apply emits_ret].
  intros t. destruct (emits_run P _ (Hh err) t) as (evs & Ht & Hevs).
  destruct (run (handler err) t) as [t' r]. now exists evs.
Qed.

Lemma emits_call {R A : Type} (P : Event -> Prop)
      (f : QuicTransport -> QuicTransport * A) :
  (forall t, exists evs, trace (fst (f t)) = trace t ++ evs /\ Forall P evs) ->
  emits P (call (R := R) f).
Proof.
  intros Hf t. unfold call. destruct (Hf t) as (evs & Ht & Hevs).
  destruct (f t) as [t' a]. now exists evs.
Qed.

Lemma emits_weaken {R A : Type} (P Q : Event -> Prop) (m : Go R A) :
  (forall e, P e -> Q e) -> emits P m -> emits Q m.
Proof.
  intros HPQ Hm t. destruct (Hm t) as (evs & Ht & Hevs).
  exists evs. split; [assumption|]. eapply Forall_impl; eauto.
Qed.

(** Steps through a body, one statement at a time. *)
Ltac emits_step :=
  match goal with
  | |- emits _ (bind _ _) => apply emits_bind; [|intros]
  | |- emits _ (ret _) => apply emits_ret
  | |- emits _ (Return _) => apply emits_Return
  | |- emits _ (Inc _) => apply emits_Inc
  | |- emits _ (Add _ _) => apply emits_Add
  | |- emits _ (get _) => apply emits_get
  | |- emits _ (time_Now _) => apply emits_time_Now
  | |- emits _ (check _ _) => apply emits_check
  | |- emits _ (try _ _) => apply emits_try; intros
  | |- emits _ (Log _ _) => apply emits_Log; intros
  | |- emits _ (debugLog_Log _) => apply emits_debugLog_Log; intros
  | |- emits _ (emit _) => apply emits_emit
  | |- emits _ (fun t => (_, inr _)) =>
      apply emits_quiet with (f := fun t => _); intros; reflexivity
  | |- emits _ (if ?b then _ else _) => destruct b
  | |- emits _ (match ?x with _ => _ end) => destruct x
  end.

Lemma handleConnection_body_logs E conn :
  emits is_log (handleConnection_body E conn).
Proof.
  unfold handleConnection_body.
  repeat (emits_step; cbn [is_log]; try exact I).
Qed.

Lemma handleConnection_logs E conn t :
  exists evs, trace (handleConnection E conn t) = trace t ++ evs
              /\ Forall is_log evs.
Proof.
  unfold handleConnection.
  destruct (emits_run _ _ (handleConnection_body_logs E conn) t)
    as (evs & Ht & Hevs).
  destruct (run (handleConnection_body E conn) t) as [t1 closeConn].
  exists evs. split; [|assumption].
  destruct closeConn; exact Ht.
Qed.

(** ** Writing a frame *)

Lemma wire_app (tr1 tr2 : list Event) : wire (tr1 ++ tr2) = wire tr1 ++ wire tr2.
Proof.
  induction tr1 as [|e tr1 IH]; [reflexivity|].
  destruct e; cbn; rewrite ?IH, ?app_assoc; reflexivity.
Qed.

Lemma writeTo_healthy E t c b addr :
  tls_DialWithDialer E (trace t) (PacketDialTimeout (cfg t)) "udp" addr
    = inr c ->
  healthy c ->
  (String.length (advertiseAddr t) <= 255)%nat ->
  snd (writeTo E b addr t) = None
  /\ exists evs, trace (fst (writeTo E b addr t)) = trace t ++ evs
                 /\ wire evs = frame_of (advertiseAddr t) b.
Proof.
  intros Hdial (Hsd & Hw & Hcl) Hlen.
  unfold writeTo, getConnection. rewrite Hdial.
  unfold writeTo_body, getAdvertisedAddr, frame_of. go_unfold. cbn.
  replace (255 <? String.length (advertiseAddr t))%nat with false
    by (symmetry; apply Nat.ltb_ge; lia).
  cbn. destruct (0 <? PacketWriteTimeout (cfg t)); cbn;
    repeat (progress (rewrite ?Hsd, ?Hw, ?Hcl, ?Nat.eqb_refl; cbn));
    destruct (TransportDebug (cfg t)); cbn;
    (split; [reflexivity|]);
    eexists; (split; [rewrite <- !app_assoc; reflexivity|]);
    cbn; rewrite !firstn_all, ?app_nil_r; cbn; rewrite <- ?app_assoc;
    reflexivity.
Qed.

(** ** The packet path of [handleConnection] *)

(** C1, at a frame whose digest does not match: [handleConnection]
    increments [receivedPacketsErrors] and still sends the packet on
    [packetCh]; neither branch of the claim's alternative holds there. *)
Theorem handleConnection_mismatch_counted_and_delivered
        (E : Env) (t : QuicTransport) (remote : string) :
  let r := handleConnection E (conn_of remote bad_frame) t in
  mismatch (repeat x00 16) [] = true
  /\ counters r receivedPacketsErrors = S (counters t receivedPacketsErrors)
  /\ exists ts, packetCh r =
       packetCh t ++ [ {| Buf := []; From := ""; Timestamp := ts |} ].
Proof.
  assert (Hm : mismatch (repeat x00 16) [] = true) by (vm_compute; reflexivity).
  destruct (handleConnection_frame E (conn_of remote bad_frame) t [] []
              (repeat x00 16))
    as (Hp & He & _); [reflexivity | cbn; lia | reflexivity |].
  cbn zeta. rewrite Hm in He.
  split; [reflexivity|]. split; [rewrite He; lia | exact Hp].
Qed.

(** C2: when the sixteen trailing bytes of a packet differ from the MD5
    of the payload, [handleConnection] increments
    [receivedPacketsErrors], logs the mismatch at warn level, and still
    sends the packet, with the payload and the address of the frame, on
    [packetCh]. *)
Theorem digest_mismatch_still_delivered
        (E : Env) (conn : Connection) (t : QuicTransport)
        (a payload dg : list byte) :
  AcceptStream conn =
    inr {| pending := packet :: byte_of_int (length a) :: a ++ payload ++ dg;
           fin := None |} ->
  (length a <= 255)%nat ->
  length dg = md5.Size ->
  dg <> md5.Sum payload ->
  let r := handleConnection E conn t in
  counters r receivedPacketsErrors = S (counters t receivedPacketsErrors)
  /\ (exists evs, trace r = trace t ++ evs
                  /\ In (EvLog Warn "packet digest mismatch") evs)
  /\ exists ts, packetCh r =
       packetCh t ++ [ {| Buf := payload; From := string_of_list_byte a;
                          Timestamp := ts |} ].
Proof.
  intros Hs Ha Hd Hne.
  destruct (handleConnection_frame E conn t a payload dg Hs Ha Hd)
    as (Hp & He & _ & _ & Htr & _).
  assert (Hm : mismatch dg payload = true).
  { unfold mismatch. destruct (bytes_Equal dg (md5.Sum payload)) eqn:Heq;
      [|reflexivity].
    apply bytes_Equal_spec in Heq. contradiction. }
  rewrite Hm in He, Htr. cbn zeta.
  split; [rewrite He; lia|]. split; [|exact Hp].
  eexists. split; [exact Htr|].
  apply in_or_app. right. apply in_or_app. left. now left.
Qed.

Lemma digest_mismatch_still_delivered_witness :
  let r := handleConnection env_ok (conn_of a_peer bad_frame) t_demo in
  counters r receivedPacketsErrors = S (counters t_demo receivedPacketsErrors)
  /\ (exists evs, trace r = trace t_demo ++ evs
                  /\ In (EvLog Warn "packet digest mismatch") evs)
  /\ exists ts, packetCh r =
       packetCh t_demo ++ [ {| Buf := []; From := string_of_list_byte [];
                               Timestamp := ts |} ].
Proof.
  apply (digest_mismatch_still_delivered env_ok (conn_of a_peer bad_frame)
           t_demo
           [] [] (repeat x00 16)).
  - reflexivity.
  - simpl. lia.
  - reflexivity.
  - vm_compute. discriminate.
Defined.

(** C3: the frame [writeTo] writes for a payload [p] under an advertised
    address of at most 255 bytes is the type byte, the length byte, the
    address, the payload and the MD5 of the payload; [handleConnection]
    reading that frame sends a packet with [Buf = p] and
    [From = advertiseAddr], and the digest check passes (no error is
    counted and no mismatch is logged). *)
Theorem parse_serialize_roundtrip
        (E E' : Env) (t peer : QuicTransport) (c : Conn)
        (p : list byte) (addr remote : string) :
  (String.length (advertiseAddr t) <= 255)%nat ->
  tls_DialWithDialer E (trace t) (PacketDialTimeout (cfg t)) "udp" addr
    = inr c ->
  healthy c ->
  exists evs,
    trace (fst (writeTo E p addr t)) = trace t ++ evs
    /\ wire evs =
         packet :: byte_of_int (String.length (advertiseAddr t))
                :: list_byte_of_string (advertiseAddr t) ++ p ++ md5.Sum p
    /\ let r := handleConnection E' (conn_of remote (wire evs)) peer in
       (exists ts, packetCh r =
          packetCh peer ++ [ {| Buf := p; From := advertiseAddr t;
                                Timestamp := ts |} ])
       /\ mismatch (md5.Sum p) p = false
       /\ counters r receivedPacketsErrors
          = counters peer receivedPacketsErrors
       /\ trace r = trace peer ++ dbg peer "New connection"
                      ++ dbg peer "Received packet".
Proof.
  intros Hlen Hdial Hc.
  destruct (writeTo_healthy E t c p addr Hdial Hc Hlen)
    as (_ & evs & Htr & Hw).
  exists evs. split; [exact Htr|]. split; [exact Hw|].
  assert (Hm : mismatch (md5.Sum p) p = false).
  { unfold mismatch.
    now rewrite (proj2 (bytes_Equal_spec (md5.Sum p) (md5.Sum p)) eq_refl). }
  destruct (handleConnection_frame E' (conn_of remote (wire evs)) peer
              (list_byte_of_string (advertiseAddr t)) p (md5.Sum p))
    as (Hp & He & _ & _ & Ht & _).
  - cbn. rewrite Hw. unfold frame_of.
    now rewrite length_list_byte_of_string.
  - now rewrite length_list_byte_of_string.
  - apply md5_Sum_length.
  - rewrite Hm in He, Ht.
    rewrite string_of_list_byte_of_string in Hp.
    cbn zeta. split; [exact Hp|]. split; [exact Hm|].
    split; [rewrite He; lia | exact Ht].
Qed.

Lemma parse_serialize_roundtrip_witness :
  exists evs,
    trace (fst (writeTo env_ok hi "10.0.0.2:7946" t_demo))
      = trace t_demo ++ evs
    /\ wire evs =
         packet :: byte_of_int (String.length (advertiseAddr t_demo))
                :: list_byte_of_string (advertiseAddr t_demo)
                     ++ hi ++ md5.Sum hi
    /\ let r := handleConnection env_ok (conn_of a_peer (wire evs)) t_demo in
       (exists ts, packetCh r =
          packetCh t_demo ++ [ {| Buf := hi; From := advertiseAddr t_demo;
                                  Timestamp := ts |} ])
       /\ mismatch (md5.Sum hi) hi = false
       /\ counters r receivedPacketsErrors
          = counters t_demo receivedPacketsErrors
       /\ trace r = trace t_demo ++ dbg t_demo "New connection"
                      ++ dbg t_demo "Received packet".
Proof.
  apply (parse_serialize_roundtrip env_ok env_ok t_demo t_demo okConn hi
           "10.0.0.2:7946" a_peer).
  - vm_compute. lia.
  - reflexivity.
  - repeat split.
Defined.

(** ** Closing accepted connections *)

(** [closeConn] is cleared only when the connection is handed over on
    [connCh]. *)
Lemma handleConnection_closeConn E conn t :
  snd (run (handleConnection_body E conn) t) = true
  \/ connCh (fst (run (handleConnection_body E conn) t)) = connCh t ++ [conn].
Proof.
  unfold handleConnection_body. go_unfold.
  destruct (TransportDebug (cfg t)); cbn;
    repeat (break_match; cbn in *; subst;
            try (left; reflexivity); try (right; reflexivity);
            try discriminate).
Qed.

(** C8, at a connection whose first byte is neither the stream nor the
    packet type: [unknownConnections] is incremented and [closeConn] is
    still true when the function is left, but the deferred function
    closes nothing.  In every run [closeConn] stays true unless the
    connection is handed over on [connCh], and no run of
    [handleConnection] closes a connection. *)
Theorem handleConnection_never_closes
        (E : Env) (t : QuicTransport) (remote : string) :
  let conn := conn_of remote [x07] in
  let r := handleConnection E conn t in
  snd (run (handleConnection_body E conn) t) = true
  /\ counters r unknownConnections = S (counters t unknownConnections)
  /\ (forall conn' t',
        snd (run (handleConnection_body E conn') t') = true
        \/ connCh (fst (run (handleConnection_body E conn') t'))
           = connCh t' ++ [conn'])
  /\ (forall conn' t' c,
        In (EvConnClose c) (trace (handleConnection E conn' t')) ->
        In (EvConnClose c) (trace t')).
Proof.
  cbn zeta. split; [|split; [|split]].
  - unfold handleConnection_body. go_unfold.
    destruct (TransportDebug (cfg t)); reflexivity.
  - unfold handleConnection, handleConnection_deferred, handleConnection_body.
    go_unfold.
    destruct (TransportDebug (cfg t)) eqn:Hdbg; cbn;
      rewrite ?io_ReadFull_cons; cbn; rewrite ?Hdbg; cbn; counters_done.
  - intros conn' t'. apply handleConnection_closeConn.
  - intros conn' t' c Hin.
    destruct (handleConnection_logs E conn' t') as (evs & Ht & Hevs).
    rewrite Ht in Hin. apply in_app_or in Hin as [Hin|Hin]; [assumption|].
    rewrite Forall_forall in Hevs. destruct (Hevs _ Hin).
Qed.

(** ** Sending: [writeTo] and [WriteTo] *)

(** [writeTo] reads the configuration, the advertised address and the
    trace, and changes the trace only. *)
Lemma writeTo_core E b addr t :
  writeTo E b addr t
  = (set_trace t (trace (fst (writeTo E b addr (core t)))),
     snd (writeTo E b addr (core t))).
Proof.
  unfold writeTo, getConnection, writeTo_body, getAdvertisedAddr, core.
  go_unfold. cbn.
  repeat (break_match; cbn in *; try reflexivity).
Qed.

Lemma emits_conn_Write {R : Type} (c : Conn) (data : list byte) :
  emits not_dial (conn_Write (R := R) c data).
Proof.
  intros t. eexists. cbn. split; [reflexivity|]. repeat constructor.
Qed.

Lemma emits_conn_Close {R : Type} (c : Conn) :
  emits not_dial (conn_Close (R := R) c).
Proof.
  intros t. eexists. cbn. split; [reflexivity|]. repeat constructor.
Qed.

Lemma emits_conn_SetDeadline {R : Type} (c : Conn) (d : Time) :
  emits not_dial (conn_SetDeadline (R := R) c d).
Proof.
  intros t. eexists. cbn. split; [reflexivity|]. repeat constructor.
Qed.

Lemma writeTo_body_no_dial E c b addr :
  emits not_dial (writeTo_body E c b addr).
Proof.
  unfold writeTo_body.
  repeat (first [ apply emits_conn_Write | apply emits_conn_Close
                | apply emits_conn_SetDeadline | emits_step ];
          cbn [not_dial]; try exact I).
Qed.

(** [writeTo] dials once, through [tls.DialWithDialer] on the "udp"
    network, before anything else. *)
Lemma writeTo_trace E b addr t :
  exists evs,
    trace (fst (writeTo E b addr t))
    = trace t ++ EvTLSDial (PacketDialTimeout (cfg t)) "udp" addr :: evs
    /\ Forall not_dial evs.
Proof.
  unfold writeTo, getConnection.
  destruct (tls_DialWithDialer E (trace t) (PacketDialTimeout (cfg t))
              "udp" addr) as [err|c].
  - exists []. cbn. split; [reflexivity | constructor].
  - destruct (emits_run _ _ (writeTo_body_no_dial E c b addr)
                (set_trace t (trace t ++
                   [EvTLSDial (PacketDialTimeout (cfg t)) "udp" addr])))
      as (evs & Ht & Hevs).
    destruct (run (writeTo_body E c b addr) _) as [t2 [closed err]].
    cbn in Ht. destruct closed; cbn.
    + exists evs. rewrite Ht, <- app_assoc. now split.
    + exists (evs ++ [EvClose]). rewrite Ht, <- !app_assoc. split; [reflexivity|].
      apply Forall_app. split; [assumption | repeat constructor].
Qed.

Lemma writeTo_dial_error E b addr t err :
  tls_DialWithDialer E (trace t) (PacketDialTimeout (cfg t)) "udp" addr
    = inl err ->
  snd (writeTo E b addr t) = Some err.
Proof. intros Hd. unfold writeTo, getConnection. now rewrite Hd. Qed.

#[local] Arguments writeTo : simpl never.
#[local] Arguments core : simpl never.

(** C4: [WriteTo] returns the current time and a nil error whatever
    [writeTo] returns; [sentPacketsErrors] is incremented exactly when
    [writeTo] returned an error. *)
Theorem WriteTo_returns_now_and_nil
        (E : Env) (b : list byte) (addr : string) (t : QuicTransport) :
  let r := WriteTo E b addr t in
  snd r = (Now E (trace (fst r)), None)
  /\ counters (fst r) sentPacketsErrors
     = (counters t sentPacketsErrors
        + match snd (writeTo E b addr t) with Some _ => 1 | None => 0 end)%nat
  /\ counters (fst r) sentPackets = S (counters t sentPackets)
  /\ counters (fst r) sentPacketsBytes
     = (counters t sentPacketsBytes + length b)%nat.
Proof.
  cbn zeta. unfold WriteTo. go_unfold. cbn.
  rewrite writeTo_core. rewrite (writeTo_core E b addr t).
  change (core _) with (core t).
  destruct (writeTo E b addr (core t)) as [t1 [e|]]; cbn.
  - destruct (strings_Contains e "connection refused");
      [destruct (TransportDebug (cfg t))|]; cbn;
      repeat split; counters_done.
  - repeat split; counters_done.
Qed.

Example WriteTo_refused :
  let r := WriteTo env_refused hi "10.0.0.2:7946" t_demo in
  snd r = (1700000001, None)
  /\ counters (fst r) sentPacketsErrors = 1%nat
  /\ trace (fst r) = [EvTLSDial (2 * Second) "udp" "10.0.0.2:7946"].
Proof. vm_compute. repeat split. Qed.

(** C5, as stated, fails when the dial fails: with a cached address of
    256 bytes and a peer that refuses the connection, [writeTo] returns
    the error of the dial and not "local address too long". *)
Lemma writeTo_long_address_dial_error :
  (255 < String.length (advertiseAddr t_long))%nat
  /\ snd (writeTo env_refused hi "10.0.0.2:7946" t_long)
     = Some "dial udp 10.0.0.2:7946: connect: connection refused"%string
  /\ snd (writeTo env_refused hi "10.0.0.2:7946" t_long)
     <> Some "local address too long"%string.
Proof.
  split; [vm_compute; lia|].
  split; [reflexivity | vm_compute; discriminate].
Qed.

(** C5, amended: once the connection is dialled, [writeTo] fails with
    "local address too long" exactly when the cached advertised address
    has more than 255 bytes; an address of at most 255 bytes is not
    rejected, its length fits the [addrLen] byte, and (the deadline
    being set without error) the first write carries the type byte,
    that length byte and the address. *)
Theorem writeTo_local_address_too_long
        (E : Env) (b : list byte) (addr : string) (t : QuicTransport)
        (c : Conn) :
  tls_DialWithDialer E (trace t) (PacketDialTimeout (cfg t)) "udp" addr
    = inr c ->
  (snd (writeTo E b addr t) = Some "local address too long"%string
   <-> (255 < String.length (advertiseAddr t))%nat)
  /\ ((String.length (advertiseAddr t) <= 255)%nat ->
      int_of_byte (byte_of_int (String.length (advertiseAddr t)))
      = String.length (advertiseAddr t)
      /\ ((forall tr d, SetDeadline c tr d = None) ->
          exists pre n evs,
            trace (fst (writeTo E b addr t))
            = trace t ++ pre
                ++ EvWrite (packet
                              :: byte_of_int (String.length (advertiseAddr t))
                              :: list_byte_of_string (advertiseAddr t)) n
                :: evs
            /\ wire pre = [])).
Proof.
  intros Hdial. split; [split|].
  - intros Herr.
    destruct (Nat.ltb_spec 255 (String.length (advertiseAddr t)))
      as [Hlt|Hle]; [assumption|exfalso].
    apply Nat.ltb_ge in Hle. revert Herr.
    unfold writeTo, getConnection. rewrite Hdial.
    unfold writeTo_body, getAdvertisedAddr. go_unfold. cbn. rewrite Hle. cbn.
    repeat (break_match; cbn in *; try discriminate).
  - intros Hlt. apply Nat.ltb_lt in Hlt.
    unfold writeTo, getConnection. rewrite Hdial.
    unfold writeTo_body, getAdvertisedAddr. go_unfold. cbn. rewrite Hlt.
    reflexivity.
  - intros Hle. split; [now apply int_of_byte_of_int|].
    intros Hsd. apply Nat.ltb_ge in Hle.
    unfold writeTo, getConnection. rewrite Hdial.
    unfold writeTo_body, getAdvertisedAddr. go_unfold. cbn. rewrite Hle. cbn.
    destruct (0 <? PacketWriteTimeout (cfg t)); cbn; rewrite ?Hsd; cbn;
      repeat (break_match; cbn in *);
      rewrite <- ?app_assoc; cbn;
      match goal with
      | |- context [EvSetDeadline ?d] =>
          exists [EvTLSDial (PacketDialTimeout (cfg t)) "udp" addr;
                  EvSetDeadline d]
      | _ => exists [EvTLSDial (PacketDialTimeout (cfg t)) "udp" addr]
      end;
      do 2 eexists; (split; [cbn; reflexivity | reflexivity]).
Qed.

Lemma writeTo_local_address_too_long_witness :
  (snd (writeTo env_ok hi "10.0.0.2:7946" t_long)
     = Some "local address too long"%string
   <-> (255 < String.length (advertiseAddr t_long))%nat)
  /\ ((String.length (advertiseAddr t_long) <= 255)%nat ->
      int_of_byte (byte_of_int (String.length (advertiseAddr t_long)))
      = String.length (advertiseAddr t_long)
      /\ ((forall tr d, SetDeadline okConn tr d = None) ->
          exists pre n evs,
            trace (fst (writeTo env_ok hi "10.0.0.2:7946" t_long))
            = trace t_long ++ pre
                ++ EvWrite (packet
                              :: byte_of_int
                                   (String.length (advertiseAddr t_long))
                              :: list_byte_of_string (advertiseAddr t_long)) n
                :: evs
            /\ wire pre = [])).
Proof.
  apply (writeTo_local_address_too_long env_ok hi "10.0.0.2:7946" t_long
           okConn).
  reflexivity.
Defined.

(** ** Building the listeners *)

(** One turn of the listener loop, case by case. *)
Lemma NewQuicTransport_listeners_cons E addr addrs port t :
  NewQuicTransport_listeners E (addr :: addrs) port t =
  match ParseIP E addr with
  | None => (t, inl (Some (err_parse E addr)))
  | Some ip =>
      let t1 := set_trace t (trace t ++ [EvListenUDP "udp4" ip port]) in
      match udp4_ip ip with
      | None =>
          (t1, inl (Some (err_udp E addr port "non-IPv4 address"%string)))
      | Some ip4 =>
          match udp4_bind E (trace t) ip ip4 port with
          | inl err => (t1, inl (Some (err_udp E addr port err)))
          | inr eph =>
              let a := bound_addr ip4 port eph in
              let t2 := set_trace t1 (trace t1 ++ [EvQuicListen a]) in
              match quic_Listen E (trace t1) a with
              | Some err => (t2, inl (Some (err_quic E addr port err)))
              | None =>
                  NewQuicTransport_listeners E addrs
                    (if port =? 0 then Port a else port)
                    (set_quicListeners t2
                       (quicListeners t2 ++ [ {| Addr := a |} ]))
              end
          end
      end
  end.
Proof.
  cbn [NewQuicTransport_listeners].
  destruct (ParseIP E addr) as [ip|]; [|reflexivity].
  unfold net_ListenUDP, quic_Transport_Listen, udp4_ip, udp4_bind,
    bound_addr, err_udp, err_quic.
  go_unfold. cbn.
  destruct (IsMulticast ip); cbn.
  - destruct (setDefaultMulticastSockopts E (trace t)) as [err|]; cbn;
      [reflexivity|].
    destruct (bind_udp E (trace t) IPv4zero port) as [err|eph];
      [reflexivity|].
    cbn. destruct (quic_Listen E _ _); reflexivity.
  - destruct (To4 _) as [ip4|]; [|reflexivity].
    destruct (bind_udp E (trace t) ip4 port) as [err|eph]; [reflexivity|].
    cbn. destruct (quic_Listen E _ _); reflexivity.
Qed.

#[local] Arguments NewQuicTransport_listeners : simpl never.

Lemma NewQuicTransport_start_spec n : forall i t,
  let r := NewQuicTransport_start i n t in
  quicListeners (fst r) = quicListeners t
  /\ cfg (fst r) = cfg t
  /\ exists evs, trace (fst r) = trace t ++ evs /\ Forall is_go_or_close evs.
Proof.
  induction n as [|n IH]; intros i t; cbn zeta.
  - cbn. repeat split. exists []. now rewrite app_nil_r.
  - cbn [NewQuicTransport_start]. go_unfold. cbn.
    destruct (nth_error (quicListeners t) i) as [ln|]; cbn.
    + specialize (IH (S i)
        (set_trace (set_wg t (wg t + 1)) (trace t ++ [EvGoQuicListen ln]))).
      cbn zeta in IH. destruct IH as (Hl & Hc & evs & Ht & Hevs).
      cbn in *. rewrite Hl, Hc, Ht. repeat split.
      exists (EvGoQuicListen ln :: evs). rewrite <- app_assoc.
      split; [reflexivity|]. constructor; [exact I | assumption].
    + repeat split. exists []. now rewrite app_nil_r.
Qed.

Lemma Shutdown_spec t :
  quicListeners (fst (Shutdown t)) = quicListeners t
  /\ cfg (fst (Shutdown t)) = cfg t
  /\ exists evs, trace (fst (Shutdown t)) = trace t ++ evs
                 /\ Forall is_go_or_close evs.
Proof.
  unfold Shutdown. cbn [fst quicListeners set_shutdown].
  assert (H : forall ls t0,
    let r := fold_left
      (fun t' ln => set_trace t' (trace t' ++ [EvListenerClose ln])) ls t0 in
    quicListeners r = quicListeners t0 /\ cfg r = cfg t0
    /\ exists evs, trace r = trace t0 ++ evs /\ Forall is_go_or_close evs).
  { induction ls as [|ln ls IH]; intros t0; cbn zeta; cbn [fold_left].
    - repeat split. exists []. now rewrite app_nil_r.
    - destruct (IH (set_trace t0 (trace t0 ++ [EvListenerClose ln])))
        as (Hl & Hc & evs & Ht & Hevs).
      cbn in *. rewrite Hl, Hc, Ht. repeat split.
      exists (EvListenerClose ln :: evs). rewrite <- app_assoc.
      split; [reflexivity|]. constructor; [exact I | assumption]. }
  apply (H (quicListeners t) (set_shutdown t 1)).
Qed.

(** The three ways [NewQuicTransport] ends. *)
Lemma NewQuicTransport_cases E config :
  let config' := effective_config config in
  let r := NewQuicTransport E config in
  (exists err, GetTLSConfig E = Some err
     /\ r = (fresh config',
             Some ("unable to create TLS config: " ++ err)%string))
  \/ (exists t1 err,
        NewQuicTransport_listeners E (BindAddrs config') (BindPort config')
          (fresh config') = (t1, inl (Some err))
        /\ r = (fst (Shutdown t1), Some err))
  \/ (exists t1,
        NewQuicTransport_listeners E (BindAddrs config') (BindPort config')
          (fresh config') = (t1, inl None)
        /\ r = (t1, None))
  \/ (exists t1,
        NewQuicTransport_listeners E (BindAddrs config') (BindPort config')
          (fresh config') = (t1, inr tt)
        /\ let s := NewQuicTransport_start 0 (length (BindAddrs config')) t1 in
           r = match snd s with
               | inl (Some err) => (fst (Shutdown (fst s)), Some err)
               | _ => (fst s, None)
               end).
Proof.
  cbn zeta. unfold NewQuicTransport.
  fold (effective_config config). fold (fresh (effective_config config)).
  destruct (GetTLSConfig E) as [err|]; [left; eauto|right].
  unfold run, bind.
  destruct (NewQuicTransport_listeners E _ _ _) as [t1 [[err|]|[]]].
  - left. eauto.
  - right. left. eauto.
  - right. right. exists t1. split; [reflexivity|].
    destruct (NewQuicTransport_start 0 _ t1) as [t2 [[err|]|[]]];
      reflexivity.
Qed.

Ltac loop_cases E addr t port :=
  rewrite NewQuicTransport_listeners_cons;
  destruct (ParseIP E addr) as [?ip|] eqn:?Hparse; cbn zeta;
  [ destruct (udp4_ip _) as [?ip4|] eqn:?Hfam;
    [ destruct (udp4_bind E (trace t) _ _ port) as [?err|?eph] eqn:?Hbind;
      [ | destruct (quic_Listen E _ _) as [?err|] eqn:?Hquic ] | ] | ].

Lemma NewQuicTransport_listeners_trace E addrs : forall port t,
  exists evs,
    trace (fst (NewQuicTransport_listeners E addrs port t)) = trace t ++ evs
    /\ Forall is_udp4_listen evs.
Proof.
  induction addrs as [|addr addrs IH]; intros port t.
  - exists []. cbn. now rewrite app_nil_r.
  - loop_cases E addr t port; cbn [fst];
      try (eexists; cbn; rewrite <- ?app_assoc; split; [reflexivity|];
           repeat constructor; fail).
    + match goal with
      | |- context [NewQuicTransport_listeners E addrs ?p ?t'] =>
          destruct (IH p t') as (evs & Ht & Hevs)
      end.
      rewrite Ht. cbn. eexists. rewrite <- !app_assoc.
      split; [reflexivity|]. cbn. repeat constructor. assumption.
    + exists []. now rewrite app_nil_r.
Qed.

Lemma NewQuicTransport_listeners_quic E addrs : forall port t,
  quic_listeners t ->
  quic_listeners (fst (NewQuicTransport_listeners E addrs port t)).
Proof.
  induction addrs as [|addr addrs IH]; intros port t Ht; [exact Ht|].
  loop_cases E addr t port; cbn [fst]; try apply IH;
    intros ln Hin; cbn in *;
    try (apply in_or_app; left; try (apply in_or_app; left); now apply Ht).
  - apply in_app_or in Hin as [Hin|[<-|[]]].
    + apply in_or_app. left. apply in_or_app. left. now apply Ht.
    + apply in_or_app. right. now left.
  - now apply Ht.
Qed.

Lemma NewQuicTransport_listeners_error E addrs : forall port t,
  snd (NewQuicTransport_listeners E addrs port t) <> inl None.
Proof.
  induction addrs as [|addr addrs IH]; intros port t; [discriminate|].
  loop_cases E addr t port; cbn [snd]; try discriminate. apply IH.
Qed.

Lemma requested_ports_app tr1 tr2 :
  requested_ports (tr1 ++ tr2) = requested_ports tr1 ++ requested_ports tr2.
Proof.
  induction tr1 as [|e tr1 IH]; [reflexivity|].
  destruct e; cbn; rewrite ?IH; reflexivity.
Qed.

Lemma requested_ports_go evs :
  Forall is_go_or_close evs -> requested_ports evs = [].
Proof.
  induction 1 as [|e evs He _ IH]; [reflexivity|].
  destruct e; cbn in *; now try contradiction.
Qed.

(** The listeners a successful loop appends share the requested port,
    or, for a request of port 0, the port the kernel gave the first,
    which is then the port requested for every later address. *)
Lemma NewQuicTransport_listeners_ports E addrs : forall port t t1,
  NewQuicTransport_listeners E addrs port t = (t1, inr tt) ->
  cfg t1 = cfg t
  /\ exists new evs,
       quicListeners t1 = quicListeners t ++ new
       /\ trace t1 = trace t ++ evs
       /\ length new = length addrs
       /\ (port <> 0 ->
           Forall (fun ln => Port (Addr ln) = port) new
           /\ requested_ports evs = repeat port (length addrs))
       /\ (port = 0 ->
           exists p, 0 < p
             /\ Forall (fun ln => Port (Addr ln) = p) new
             /\ requested_ports evs
                = match addrs with
                  | [] => []
                  | _ :: rest => 0 :: repeat p (length rest)
                  end).
Proof.
  induction addrs as [|addr addrs IH]; intros port t t1.
  - intros [= <-]. split; [reflexivity|]. exists [], []. rewrite !app_nil_r.
    repeat split; try constructor.
    intros _. exists 1. repeat split; try lia; constructor.
  - loop_cases E addr t port; try discriminate.
    intros Hloop.
    apply IH in Hloop as (Hc & new & evs & Hl & Ht & Hn & Hport & _).
    split; [exact Hc|].
    exists ({| Addr := bound_addr ip4 port eph |} :: new).
    exists (EvListenUDP "udp4" ip port
              :: EvQuicListen (bound_addr ip4 port eph) :: evs).
    cbn in Hl, Ht. rewrite Hl, Ht, <- !app_assoc.
    split; [reflexivity|]. split; [reflexivity|].
    split; [cbn; congruence|].
    unfold bound_addr in *. cbn in *.
    destruct (Z.eqb_spec port 0) as [->|Hp]; split; intros Hq;
      try contradiction.
    + destruct Hport as [Hall Hreq]; [lia|].
      exists (Z.pos eph). split; [lia|].
      split; [constructor; [reflexivity | exact Hall]|].
      now rewrite Hreq.
    + destruct (Hport Hp) as [Hall Hreq].
      split; [constructor; [reflexivity | exact Hall]|].
      now rewrite Hreq.
Qed.



(** ** The constructor *)


Lemma quic_listeners_ext t t' evs :
  quic_listeners t -> quicListeners t' = quicListeners t ->
  trace t' = trace t ++ evs -> quic_listeners t'.
Proof.
  intros Ht Hl Htr ln Hin. rewrite Htr. apply in_or_app. left.
  apply Ht. now rewrite <- Hl.
Qed.

Lemma NewQuicTransport_quic_listeners E config :
  quic_listeners (fst (NewQuicTransport E config)).
Proof.
  pose proof (NewQuicTransport_listeners_quic E
                (BindAddrs (effective_config config))
                (BindPort (effective_config config))
                (fresh (effective_config config))) as Hq.
  destruct (NewQuicTransport_cases E config)
    as [(err & _ & ->)|[(t1 & err & Hl & ->)|[(t1 & Hl & ->)|(t1 & Hl & ->)]]];
    cbn [fst]; rewrite ?Hl in Hq; cbn [fst] in Hq.
  - intros ln [].
  - destruct (Shutdown_spec t1) as (Hls & _ & evs & Hs & _).
    eapply quic_listeners_ext; eauto. apply Hq. intros ln [].
  - apply Hq. intros ln [].
  - assert (Hq1 : quic_listeners t1) by (apply Hq; intros ln []).
    destruct (NewQuicTransport_start_spec
                (length (BindAddrs (effective_config config))) 0 t1)
      as (Hls & _ & evs2 & Hs & _).
    assert (Hq2 : quic_listeners
                    (fst (NewQuicTransport_start 0
                            (length (BindAddrs (effective_config config)))
                            t1)))
      by (eapply quic_listeners_ext; eauto).
    destruct (NewQuicTransport_start 0 _ t1) as [t2 [[err|]|[]]];
      cbn [fst snd] in *; try assumption.
    destruct (Shutdown_spec t2) as (Hls3 & _ & evs3 & Hs3 & _).
    eapply quic_listeners_ext; eauto.
Qed.

(** C7: when the configured bind port is 0 and construction succeeds,
    there is one listener per bind address, the first bind asks for
    port 0 and every later one for the port the kernel gave the first
    listener, all listeners report that port, and [GetAutoBindPort]
    returns it; the port is not zero. *)
Theorem auto_bind_port_is_shared
        (E : Env) (config : QuicTransportConfig) (t : QuicTransport) :
  BindPort config = 0 ->
  NewQuicTransport E config = (t, None) ->
  exists p,
    0 < p
    /\ GetAutoBindPort t = Some p
    /\ Forall (fun ln => Port (Addr ln) = p) (quicListeners t)
    /\ length (quicListeners t) = length (BindAddrs (cfg t))
    /\ requested_ports (trace t)
       = 0 :: repeat p (length (BindAddrs (cfg t)) - 1).
Proof.
  intros Hport Hnew.
  assert (Hport' : BindPort (effective_config config) = 0).
  { unfold effective_config. now destruct (_ =? _)%nat. }
  assert (Hne : BindAddrs (effective_config config) <> []).
  { unfold effective_config.
    destruct (length (BindAddrs config) =? 0)%nat eqn:Hz; [discriminate|].
    destruct (BindAddrs config); [discriminate|discriminate]. }
  pose proof (NewQuicTransport_listeners_error E
                (BindAddrs (effective_config config))
                (BindPort (effective_config config))
                (fresh (effective_config config))) as Hnone.
  destruct (NewQuicTransport_cases E config)
    as [(err & _ & Hr)|[(t1 & err & Hl & Hr)|[(t1 & Hl & Hr)|(t1 & Hl & Hr)]]];
    rewrite Hnew in Hr; try discriminate.
  - rewrite Hl in Hnone. now contradiction Hnone.
  - apply NewQuicTransport_listeners_ports in Hl
      as (Hc & new & evs & Hls & Htr & Hn & _ & Hzero).
    rewrite Hport' in Hzero.
    destruct (Hzero eq_refl) as (p & Hp & Hall & Hreq).
    cbn in Hls, Htr, Hc.
    destruct (NewQuicTransport_start_spec
                (length (BindAddrs (effective_config config))) 0 t1)
      as (Hls2 & Hc2 & evs2 & Hs & Hevs2).
    destruct (NewQuicTransport_start 0 _ t1) as [t2 [[err|]|[]]];
      cbn [fst snd] in *; try discriminate;
      injection Hr as <-;
      (exists p; rewrite Hls2, Hls, Hc2, Hc, Hs, Htr, requested_ports_app,
                   (requested_ports_go evs2 Hevs2), app_nil_r, Hreq, Hn;
       destruct (BindAddrs (effective_config config)) as [|a0 rest];
       [contradiction|];
       destruct new as [|ln new]; [discriminate|];
       split; [assumption|];
       split; [unfold GetAutoBindPort; rewrite Hls2, Hls;
               now inversion Hall; subst|];
       split; [assumption|];
       split; [reflexivity|];
       cbn; now rewrite Nat.sub_0_r).
Qed.

Example auto_bind_two_addresses :
  let t := fst (NewQuicTransport env_ok cfg_auto) in
  map (fun ln => Port (Addr ln)) (quicListeners t) = [40000; 40000]
  /\ requested_ports (trace t) = [0; 40000]
  /\ GetAutoBindPort t = Some 40000.
Proof. vm_compute. repeat split. Qed.

Lemma auto_bind_port_is_shared_witness :
  exists p,
    0 < p
    /\ GetAutoBindPort (fst (NewQuicTransport env_ok cfg_auto)) = Some p
    /\ Forall (fun ln => Port (Addr ln) = p)
         (quicListeners (fst (NewQuicTransport env_ok cfg_auto)))
    /\ length (quicListeners (fst (NewQuicTransport env_ok cfg_auto)))
       = length (BindAddrs (cfg (fst (NewQuicTransport env_ok cfg_auto))))
    /\ requested_ports (trace (fst (NewQuicTransport env_ok cfg_auto)))
       = 0 :: repeat p
                (length (BindAddrs
                           (cfg (fst (NewQuicTransport env_ok cfg_auto)))) - 1).
Proof.
  apply (auto_bind_port_is_shared env_ok cfg_auto).
  - reflexivity.
  - vm_compute. reflexivity.
Defined.

(** ** Outbound connections *)

Lemma DialTimeout_trace E addr timeout t :
  exists evs,
    trace (fst (DialTimeout E addr timeout t))
    = trace t ++ EvTLSDial timeout "udp" addr :: evs
    /\ Forall not_dial evs.
Proof.
  unfold DialTimeout, getConnection. go_unfold. cbn.
  destruct (tls_DialWithDialer E (trace t) timeout "udp" addr) as [err|c];
    cbn.
  - exists []. split; [reflexivity|constructor].
  - destruct (Write c _ _) as [n [e|]]; cbn.
    + eexists. rewrite <- !app_assoc. cbn. split; [reflexivity|].
      repeat constructor.
    + eexists. rewrite <- !app_assoc. cbn. split; [reflexivity|].
      repeat constructor.
Qed.

Lemma WriteTo_trace E b addr t :
  exists evs,
    trace (fst (WriteTo E b addr t))
    = trace t ++ EvTLSDial (PacketDialTimeout (cfg t)) "udp" addr :: evs
    /\ Forall not_dial evs.
Proof.
  unfold WriteTo. go_unfold. cbn.
  match goal with
  | |- context [writeTo E b addr ?t0] =>
      destruct (writeTo_trace E b addr t0) as (evs & Ht & Hevs);
      destruct (writeTo E b addr t0) as [t1 [e|]]
  end; cbn in *.
  - destruct (strings_Contains e "connection refused");
      [destruct (TransportDebug (cfg t1))|]; cbn; rewrite Ht.
    + exists (evs ++ [EvLog Debug "WriteTo failed"]).
      rewrite <- app_assoc. split; [reflexivity|].
      apply Forall_app. split; [assumption|repeat constructor].
    + now exists evs.
    + exists (evs ++ [EvLog Warn "WriteTo failed"]).
      rewrite <- app_assoc. split; [reflexivity|].
      apply Forall_app. split; [assumption|repeat constructor].
  - now exists evs.
Qed.

(** C9: every call of [WriteTo] and of [DialTimeout] opens its
    connection once, by [tls.DialWithDialer] on the "udp" network, and
    never through the quic package; the listeners of the transport are
    all made by [quic.Transport.Listen]. *)
Theorem outbound_dials_tls_over_udp
        (E : Env) (b : list byte) (addr : string) (timeout : Duration)
        (t : QuicTransport) (config : QuicTransportConfig) :
  (exists evs,
     trace (fst (WriteTo E b addr t))
     = trace t ++ EvTLSDial (PacketDialTimeout (cfg t)) "udp" addr :: evs
     /\ Forall not_dial evs)
  /\ (exists evs,
        trace (fst (DialTimeout E addr timeout t))
        = trace t ++ EvTLSDial timeout "udp" addr :: evs
        /\ Forall not_dial evs)
  /\ (forall ln,
        In ln (quicListeners (fst (NewQuicTransport E config))) ->
        In (EvQuicListen (Addr ln))
           (trace (fst (NewQuicTransport E config)))).
Proof.
  split; [apply WriteTo_trace|].
  split; [apply DialTimeout_trace|].
  apply NewQuicTransport_quic_listeners.
Qed.

(** ** IPv6 bind addresses *)


Example bind_colonColon_fails :
  snd (NewQuicTransport env_ok (with_BindAddrs cfg_demo [colonColon]))
  = Some "failed to start UDP listener on :: port 7946: non-IPv4 address"%string.
Proof. vm_compute. reflexivity. Qed.




(** ** The accept loop *)

Lemma sleeps_app tr1 tr2 : sleeps (tr1 ++ tr2) = sleeps tr1 ++ sleeps tr2.
Proof.
  induction tr1 as [|e tr1 IH]; [reflexivity|].
  destruct e; cbn; rewrite ?IH; reflexivity.
Qed.

Lemma wrap64_small x : 0 <= x < 2 ^ 63 -> wrap64 x = x.
Proof. intros Hx. unfold wrap64. rewrite Z.mod_small; lia. Qed.

Lemma backoff_bounds k : within_bounds (backoff k).
Proof.
  unfold within_bounds, backoff, Millisecond, Second.
  pose proof (Z.pow_pos_nonneg 2 (Z.of_nat k)). lia.
Qed.

Lemma backoff_0 : backoff 0 = 5 * Millisecond.
Proof. reflexivity. Qed.

Lemma backoff_S k : backoff (S k) = Z.min (2 * backoff k) (1 * Second).
Proof.
  unfold backoff, Millisecond, Second.
  rewrite Nat2Z.inj_succ, Z.pow_succ_r by lia.
  pose proof (Z.pow_pos_nonneg 2 (Z.of_nat k)). lia.
Qed.

(** The delay an iteration computes after an error. *)
Lemma next_delay k :
  (if maxDelay <?
      (if delay_after k =? 0 then baseDelay else wrap64 (delay_after k * 2))
   then maxDelay
   else if delay_after k =? 0 then baseDelay
        else wrap64 (delay_after k * 2))
  = backoff k.
Proof.
  destruct k as [|k]; [reflexivity|].
  cbn [delay_after]. pose proof (backoff_bounds k) as Hb.
  unfold within_bounds, Millisecond, Second in Hb.
  destruct (Z.eqb_spec (backoff k) 0) as [H0|_]; [lia|].
  rewrite wrap64_small by lia. rewrite backoff_S.
  unfold maxDelay, Second.
  destruct (Z.ltb_spec (1 * 1000000000) (backoff k * 2)); lia.
Qed.

Lemma quicListen_loop_app s1 : forall s2 d t,
  quicListen_loop (s1 ++ s2) d t =
  match quicListen_loop s1 d t with
  | (t', Accepting d') => quicListen_loop s2 d' t'
  | (t', Exited) => (t', Exited)
  end.
Proof.
  induction s1 as [|tick s1 IH]; intros s2 d t; [reflexivity|].
  destruct tick as [res|]; cbn [app quicListen_loop]; [|apply IH].
  destruct (run (quicListen_iteration res d) t) as [t' [d'|]];
    [apply IH | reflexivity].
Qed.

(** An error with the shutdown flag set leaves the loop at once. *)
Lemma quicListen_loop_shutdown err script d t :
  shutdown t = 1 ->
  quicListen_loop (AcceptReturns (inl err) :: script) d t = (t, Exited).
Proof.
  intros Hs. cbn [quicListen_loop]. unfold quicListen_iteration.
  go_unfold. cbn. rewrite Hs. reflexivity.
Qed.

(** Consecutive errors, from the delay [k] earlier ones have left. *)
Lemma quicListen_loop_failing errs : forall k t,
  shutdown t <> 1 ->
  exists evs,
    quicListen_loop (failing errs) (delay_after k) t
    = (set_trace t (trace t ++ evs),
       Accepting (delay_after (k + length errs)))
    /\ sleeps evs = map backoff (seq k (length errs)).
Proof.
  induction errs as [|err errs IH]; intros k t Hs.
  - exists []. cbn. rewrite app_nil_r, Nat.add_0_r.
    split; [|reflexivity]. now destruct t.
  - cbn [failing map quicListen_loop]. unfold quicListen_iteration.
    go_unfold. cbn [shutdown].
    destruct (Z.eqb_spec (shutdown t) 1) as [|_]; [contradiction|].
    cbn [trace set_trace].
    match goal with
    | |- context [EvSleep ?d] =>
        replace d with (backoff k) by (symmetry; apply next_delay)
    end.
    match goal with
    | |- context [quicListen_loop ?s ?d ?t'] =>
        destruct (IH (S k) t') as (evs & Hloop & Hsl); [exact Hs|];
        change (quicListen_loop s d t')
          with (quicListen_loop (failing errs) (delay_after (S k)) t');
        rewrite Hloop
    end.
    cbn [trace set_trace].
    exists (EvLog Error "Error accepting Quic connection"
              :: EvSleep (backoff k) :: evs).
    split.
    + rewrite <- !app_assoc. cbn [app length].
      replace (k + S (length errs))%nat with (S k + length errs)%nat by lia.
      reflexivity.
    + cbn. now rewrite Hsl.
Qed.

(** Whatever the script, every sleep is between 5 ms and 1 s. *)
Lemma quicListen_loop_bounded script : forall d t,
  d = 0 \/ within_bounds d ->
  exists evs,
    trace (fst (quicListen_loop script d t)) = trace t ++ evs
    /\ Forall within_bounds (sleeps evs).
Proof.
  induction script as [|tick script IH]; intros d t Hd.
  - exists []. cbn. rewrite app_nil_r. split; [reflexivity|constructor].
  - destruct tick as [[err|conn]|]; cbn [quicListen_loop].
    + unfold quicListen_iteration. go_unfold. cbn -[Z.mul].
      destruct (shutdown t =? 1); cbn -[Z.mul].
      * exists []. rewrite app_nil_r. split; [reflexivity|constructor].
      * match goal with
        | |- context [quicListen_loop script ?d' ?t'] =>
            assert (Hd' : within_bounds d');
            [|destruct (IH d' t' (or_intror Hd')) as (evs & Ht & Hevs)]
        end.
        { unfold within_bounds, baseDelay, maxDelay, Millisecond, Second
            in *.
          destruct Hd as [->|Hd]; cbn -[Z.mul].
          - cbn. lia.
          - destruct (Z.eqb_spec d 0); [lia|].
            rewrite wrap64_small by lia.
            destruct (Z.ltb_spec (1 * 1000000000) (d * 2)); lia. }
        rewrite Ht. cbn [trace set_trace]. eexists.
        rewrite <- !app_assoc. split; [reflexivity|].
        cbn. constructor; assumption.
    + unfold quicListen_iteration. go_unfold. cbn.
      match goal with
      | |- context [quicListen_loop script 0 ?t'] =>
          destruct (IH 0 t' (or_introl eq_refl)) as (evs & Ht & Hevs)
      end.
      rewrite Ht. cbn [trace set_trace]. eexists.
      rewrite <- !app_assoc. split; [reflexivity|]. exact Hevs.
    + destruct (IH d (set_shutdown t 1) Hd) as (evs & Ht & Hevs).
      now exists evs.
Qed.

Example backoff_values :
  map backoff (seq 0 10)
  = [ 5000000; 10000000; 20000000; 40000000; 80000000; 160000000;
      320000000; 640000000; 1000000000; 1000000000 ].
Proof. reflexivity. Qed.

(** C6: in the accept loop the delay after the first of consecutive
    [Accept] errors is 5 ms, each further consecutive error doubles it,
    it never exceeds 1 s, and a successful accept resets it to zero;
    an [Accept] error met with the shutdown flag set ends the loop
    without a retry. *)
Theorem accept_loop_backoff
        (t : QuicTransport) (errs1 errs2 : list error) (conn : Connection)
        (err : error) (script : list Tick) :
  shutdown t <> 1 ->
  (backoff 0 = 5 * Millisecond
   /\ (forall k, backoff (S k) = Z.min (2 * backoff k) (1 * Second))
   /\ (forall k, backoff k <= 1 * Second))
  /\ (exists evs1 evs2,
        quicListen_loop
          (failing errs1 ++ [AcceptReturns (inr conn)] ++ failing errs2) 0 t
        = (set_trace t
             (trace t ++ evs1 ++ [EvGoHandleConnection conn] ++ evs2),
           Accepting (delay_after (length errs2)))
        /\ sleeps evs1 = map backoff (seq 0 (length errs1))
        /\ sleeps evs2 = map backoff (seq 0 (length errs2)))
  /\ snd (quicListen_loop (failing errs1 ++ [AcceptReturns (inr conn)]) 0 t)
     = Accepting 0
  /\ (exists evs1,
        quicListen_loop
          (failing errs1 ++ ShutdownStored :: AcceptReturns (inl err) :: script)
          0 t
        = (set_shutdown (set_trace t (trace t ++ evs1)) 1, Exited)
        /\ sleeps evs1 = map backoff (seq 0 (length errs1)))
  /\ (exists evs,
        trace (fst (quicListen_loop script 0 t)) = trace t ++ evs
        /\ Forall within_bounds (sleeps evs)).
Proof.
  intros Hs.
  destruct (quicListen_loop_failing errs1 0 t Hs) as (evs1 & Hl1 & Hs1).
  cbn [delay_after] in Hl1.
  split; [|split; [|split; [|split]]].
  - split; [exact backoff_0|]. split; [exact backoff_S|].
    intros k. apply backoff_bounds.
  - rewrite quicListen_loop_app, Hl1.
    cbn [app quicListen_loop]. unfold quicListen_iteration. go_unfold.
    cbn [trace set_trace].
    match goal with
    | |- context [quicListen_loop (failing errs2) 0 ?t'] =>
        destruct (quicListen_loop_failing errs2 0 t' Hs)
          as (evs2 & Hl2 & Hs2);
        cbn [delay_after] in Hl2; rewrite Hl2
    end.
    exists evs1, evs2. cbn [trace set_trace Nat.add].
    rewrite <- !app_assoc. now repeat split.
  - rewrite quicListen_loop_app, Hl1. reflexivity.
  - rewrite quicListen_loop_app, Hl1. cbn [quicListen_loop].
    exists evs1. split; [|exact Hs1].
    apply quicListen_loop_shutdown. reflexivity.
  - apply quicListen_loop_bounded. now left.
Qed.

Lemma accept_loop_backoff_witness :
  (backoff 0 = 5 * Millisecond
   /\ (forall k, backoff (S k) = Z.min (2 * backoff k) (1 * Second))
   /\ (forall k, backoff k <= 1 * Second))
  /\ (exists evs1 evs2,
        quicListen_loop
          (failing ["e1"; "e2"; "e3"]%string
             ++ [AcceptReturns (inr (conn_of a_peer bad_frame))]
             ++ failing ["e4"]%string) 0 t_demo
        = (set_trace t_demo
             (trace t_demo ++ evs1
                ++ [EvGoHandleConnection (conn_of a_peer bad_frame)] ++ evs2),
           Accepting (delay_after (length ["e4"%string])))
        /\ sleeps evs1
           = map backoff (seq 0 (length ["e1"; "e2"; "e3"]%string))
        /\ sleeps evs2 = map backoff (seq 0 (length ["e4"%string])))
  /\ snd (quicListen_loop
            (failing ["e1"; "e2"; "e3"]%string
               ++ [AcceptReturns (inr (conn_of a_peer bad_frame))]) 0 t_demo)
     = Accepting 0
  /\ (exists evs1,
        quicListen_loop
          (failing ["e1"; "e2"; "e3"]%string
             ++ ShutdownStored
             :: AcceptReturns (inl "use of closed network connection"%string)
             :: [AcceptReturns (inl "e5"%string)])
          0 t_demo
        = (set_shutdown (set_trace t_demo (trace t_demo ++ evs1)) 1, Exited)
        /\ sleeps evs1
           = map backoff (seq 0 (length ["e1"; "e2"; "e3"]%string)))
  /\ (exists evs,
        trace (fst (quicListen_loop [AcceptReturns (inl "e5"%string)]
                      0 t_demo))
        = trace t_demo ++ evs
        /\ Forall within_bounds (sleeps evs)).
Proof.
  apply (accept_loop_backoff t_demo ["e1"; "e2"; "e3"]%string ["e4"%string]
           (conn_of a_peer bad_frame) "use of closed network connection"%string
           [AcceptReturns (inl "e5"%string)]).
  vm_compute. discriminate.
Defined.

(* ================================================================== *)
(** * Further properties *)

(** ** Dispatch in [handleConnection] *)

Lemma eqb_byte_false (x y : byte) : x <> y -> Byte.eqb x y = false.
Proof.
  intros Hne. destruct (Byte.eqb x y) eqn:Heq; [|reflexivity].
  apply Byte.byte_dec_bl in Heq. contradiction.
Qed.

Lemma io_ReadFull_nil (f : option error) :
  io_ReadFull {| pending := []; fin := f |} 1
  = inl (match f with Some e => e | None => "EOF"%string end).
Proof. reflexivity. Qed.

Ltac hc_unfold :=
  unfold handleConnection, handleConnection_deferred, handleConnection_body;
  go_unfold.

(** X1: a connection whose first byte is the stream type is handed over
    on [connCh] as it is: [incomingStreams] is incremented, no other
    counter moves, nothing goes to [packetCh], nothing but the debug
    line is logged, and [closeConn] is cleared. *)
Theorem stream_connection_is_handed_over
        (E : Env) (conn : Connection) (t : QuicTransport)
        (rest : list byte) (f : option error) :
  AcceptStream conn = inr {| pending := stream :: rest; fin := f |} ->
  let r := handleConnection E conn t in
  connCh r = connCh t ++ [conn]
  /\ packetCh r = packetCh t
  /\ counters r incomingStreams = S (counters t incomingStreams)
  /\ (forall c, c <> incomingStreams -> counters r c = counters t c)
  /\ trace r = trace t ++ dbg t "New connection"
  /\ snd (run (handleConnection_body E conn) t) = false.
Proof.
  intros Hs. hc_unfold. unfold dbg. rewrite Hs.
  destruct (TransportDebug (cfg t)) eqn:Hdbg; cbn;
    rewrite ?io_ReadFull_cons; cbn;
    (repeat split; try counters_done;
     intros c Hc; destruct c; try contradiction; counters_done).
Qed.

Lemma stream_connection_is_handed_over_witness :
  let conn := conn_of a_peer [x01; x70; x69] in
  let r := handleConnection env_ok conn t_demo in
  connCh r = connCh t_demo ++ [conn]
  /\ packetCh r = packetCh t_demo
  /\ counters r incomingStreams = S (counters t_demo incomingStreams)
  /\ (forall c, c <> incomingStreams -> counters r c = counters t_demo c)
  /\ trace r = trace t_demo ++ dbg t_demo "New connection"
  /\ snd (run (handleConnection_body env_ok conn) t_demo) = false.
Proof.
  apply (stream_connection_is_handed_over env_ok
           (conn_of a_peer [x01; x70; x69]) t_demo [x70; x69] None).
  reflexivity.
Defined.

(** X2: a connection whose first byte is neither the stream nor the
    packet type is counted in [unknownConnections] and logged at error
    level; no other counter moves and nothing is sent on either
    channel. *)
Theorem unknown_type_is_counted_and_dropped
        (E : Env) (conn : Connection) (t : QuicTransport)
        (b : byte) (rest : list byte) (f : option error) :
  AcceptStream conn = inr {| pending := b :: rest; fin := f |} ->
  b <> stream -> b <> packet ->
  let r := handleConnection E conn t in
  counters r unknownConnections = S (counters t unknownConnections)
  /\ (forall c, c <> unknownConnections -> counters r c = counters t c)
  /\ packetCh r = packetCh t
  /\ connCh r = connCh t
  /\ trace r = trace t ++ dbg t "New connection"
                 ++ [EvLog Error "unknown message type"].
Proof.
  intros Hs Hst Hpk. hc_unfold. unfold dbg. rewrite Hs.
  apply eqb_byte_false in Hst, Hpk.
  destruct (TransportDebug (cfg t)) eqn:Hdbg; cbn;
    rewrite ?io_ReadFull_cons; cbn; rewrite Hst, Hpk; cbn;
    rewrite <- ?app_assoc;
    (repeat split; try counters_done;
     intros c Hc; destruct c; try contradiction; counters_done).
Qed.

Lemma unknown_type_is_counted_and_dropped_witness :
  let r := handleConnection env_ok (conn_of a_peer [x00; x02]) t_demo in
  counters r unknownConnections = S (counters t_demo unknownConnections)
  /\ (forall c, c <> unknownConnections -> counters r c = counters t_demo c)
  /\ packetCh r = packetCh t_demo
  /\ connCh r = connCh t_demo
  /\ trace r = trace t_demo ++ dbg t_demo "New connection"
                 ++ [EvLog Error "unknown message type"].
Proof.
  apply (unknown_type_is_counted_and_dropped env_ok
           (conn_of a_peer [x00; x02]) t_demo x00 [x02] None).
  - reflexivity.
  - discriminate.
  - discriminate.
Defined.

(** X3: when the first stream cannot be accepted, or ends before its
    first byte, [handleConnection] logs a warning and returns: no
    counter moves and nothing is sent on either channel. *)
Theorem no_type_byte_is_not_counted
        (E : Env) (conn : Connection) (t : QuicTransport) :
  (exists err, AcceptStream conn = inl err)
  \/ (exists f, AcceptStream conn = inr {| pending := []; fin := f |}) ->
  let r := handleConnection E conn t in
  (forall c, counters r c = counters t c)
  /\ packetCh r = packetCh t
  /\ connCh r = connCh t
  /\ exists msg, trace r = trace t ++ dbg t "New connection"
                             ++ [EvLog Warn msg].
Proof.
  intros [[err Hs]|[f Hs]]; hc_unfold; unfold dbg; rewrite Hs;
    destruct (TransportDebug (cfg t)) eqn:Hdbg; cbn;
    rewrite ?io_ReadFull_nil; cbn; rewrite <- ?app_assoc;
    (split; [reflexivity|]); (split; [reflexivity|]);
    (split; [reflexivity|]); eexists; cbn; reflexivity.
Qed.

Lemma no_type_byte_is_not_counted_witness :
  let r := handleConnection env_ok (conn_of a_peer []) t_demo in
  (forall c, counters r c = counters t_demo c)
  /\ packetCh r = packetCh t_demo
  /\ connCh r = connCh t_demo
  /\ exists msg, trace r = trace t_demo ++ dbg t_demo "New connection"
                             ++ [EvLog Warn msg].
Proof.
  apply (no_type_byte_is_not_counted env_ok (conn_of a_peer []) t_demo).
  right. exists None. reflexivity.
Defined.

Ltac break_match_in H :=
  match type of H with
  | context [match ?x with _ => _ end] =>
      lazymatch x with
      | context [match _ with _ => _ end] => fail
      | _ => destruct x eqn:?
      end
  end.

(** Every way through [handleConnection], as equations on its result. *)
Ltac hc_cases E conn t r Hr :=
  remember (handleConnection E conn t) as r eqn:Hr;
  unfold handleConnection, handleConnection_deferred, handleConnection_body
    in Hr;
  go_unfold;
  destruct (TransportDebug (cfg t)) eqn:?Hdbg; cbn in Hr;
  repeat (break_match_in Hr; cbn in Hr).

Ltac counter_cases :=
  let c := fresh "c" in
  let Hc := fresh "Hc" in
  intros c Hc; destruct c; try discriminate; try contradiction;
  counters_done.

(** X4: whatever the connection carries, [handleConnection] sends at
    most one packet, adds the length of its payload to
    [receivedPacketsBytes], counts at most one error, and leaves alone
    the configuration, the listeners, the shutdown flag, the advertised
    address, the wait group and the counters of the outbound side. *)
Theorem handleConnection_accounting
        (E : Env) (conn : Connection) (t : QuicTransport) :
  let r := handleConnection E conn t in
  (exists new,
     packetCh r = packetCh t ++ new
     /\ (length new <= 1)%nat
     /\ counters r receivedPacketsBytes
        = (counters t receivedPacketsBytes + payload_bytes new)%nat)
  /\ (counters t receivedPacketsErrors <= counters r receivedPacketsErrors
      <= S (counters t receivedPacketsErrors))%nat
  /\ (forall c, inbound_counter c = false -> counters r c = counters t c)
  /\ cfg r = cfg t
  /\ quicListeners r = quicListeners t
  /\ shutdown r = shutdown t
  /\ advertiseAddr r = advertiseAddr t
  /\ wg r = wg t.
Proof.
  cbn zeta. hc_cases E conn t r Hr; subst r; cbn;
    (split;
     [ first [ exists []; rewrite app_nil_r; cbn;
               split; [reflexivity|]; split; [lia|]; counters_done
             | eexists [_]; split; [reflexivity|]; split; [cbn; lia|];
               unfold payload_bytes; counters_done ]
     | split; [split; counters_done|];
       split; [counter_cases|]; repeat split ]).
Qed.

(** X5: a connection whose first byte is the packet type is counted in
    [receivedPackets] and is never handed over on [connCh]; then either
    one packet is sent on [packetCh], or nothing is sent and
    [receivedPacketsErrors] is incremented exactly once. *)
Theorem packet_is_delivered_or_counted_as_error
        (E : Env) (conn : Connection) (t : QuicTransport)
        (rest : list byte) (f : option error) :
  AcceptStream conn = inr {| pending := packet :: rest; fin := f |} ->
  let r := handleConnection E conn t in
  counters r receivedPackets = S (counters t receivedPackets)
  /\ connCh r = connCh t
  /\ counters r incomingStreams = counters t incomingStreams
  /\ counters r unknownConnections = counters t unknownConnections
  /\ ((exists p, packetCh r = packetCh t ++ [p])
      \/ (packetCh r = packetCh t
          /\ counters r receivedPacketsErrors
             = S (counters t receivedPacketsErrors)
          /\ counters r receivedPacketsBytes
             = counters t receivedPacketsBytes)).
Proof.
  intros Hs. cbn zeta.
  remember (handleConnection E conn t) as r eqn:Hr.
  unfold handleConnection, handleConnection_deferred, handleConnection_body
    in Hr.
  rewrite Hs in Hr. go_unfold.
  destruct (TransportDebug (cfg t)) eqn:Hdbg; cbn in Hr;
    rewrite ?io_ReadFull_cons in Hr; cbn in Hr;
    repeat (break_match_in Hr; cbn in Hr); subst r; cbn;
    (split; [counters_done|]); (split; [reflexivity|]);
    (split; [counters_done|]); (split; [counters_done|]);
    first [ left; eexists; reflexivity
          | right; split; [reflexivity|]; split; counters_done ].
Qed.

Lemma packet_is_delivered_or_counted_as_error_witness :
  let r := handleConnection env_ok (conn_of a_peer [x02; x03; x61]) t_demo in
  counters r receivedPackets = S (counters t_demo receivedPackets)
  /\ connCh r = connCh t_demo
  /\ counters r incomingStreams = counters t_demo incomingStreams
  /\ counters r unknownConnections = counters t_demo unknownConnections
  /\ ((exists p, packetCh r = packetCh t_demo ++ [p])
      \/ (packetCh r = packetCh t_demo
          /\ counters r receivedPacketsErrors
             = S (counters t_demo receivedPacketsErrors)
          /\ counters r receivedPacketsBytes
             = counters t_demo receivedPacketsBytes)).
Proof.
  apply (packet_is_delivered_or_counted_as_error env_ok
           (conn_of a_peer [x02; x03; x61]) t_demo [x03; x61] None).
  reflexivity.
Defined.

Lemma io_ReadFull_inr (s s' : Stream) (n : nat) (x : list byte) :
  io_ReadFull s n = inr (x, s') ->
  pending s = x ++ pending s' /\ length x = n /\ fin s' = fin s.
Proof.
  unfold io_ReadFull.
  destruct (n <=? length (pending s))%nat eqn:Hn; [|discriminate].
  apply Nat.leb_le in Hn. intros [= <- <-]. cbn.
  rewrite firstn_skipn, length_firstn. repeat split. lia.
Qed.

Lemma one_byte (x : list byte) :
  length x = 1%nat -> x = [nth 0 x x00].
Proof. destruct x as [|b [|]]; try discriminate. reflexivity. Qed.

Lemma frame_of_reads (s s0 s1 s2 : Stream) (l l0 l1 l2 : list byte) :
  io_ReadFull s 1 = inr (l, s0) ->
  Byte.eqb (nth 0 l x00) packet = true ->
  io_ReadFull s0 1 = inr (l0, s1) ->
  io_ReadFull s1 (int_of_byte (nth 0 l0 x00)) = inr (l1, s2) ->
  io_ReadAll s2 = inr l2 ->
  (length l2 <? md5.Size)%nat = false ->
  s = {| pending :=
           packet :: nth 0 l0 x00
             :: l1 ++ firstn (length l2 - md5.Size) l2
                  ++ skipn (length l2 - md5.Size) l2;
         fin := None |}
  /\ length l1 = int_of_byte (nth 0 l0 x00)
  /\ length (skipn (length l2 - md5.Size) l2) = md5.Size.
Proof.
  intros H0 Hpk H1 H2 Hall Hlen.
  apply io_ReadFull_inr in H0 as (Hp0 & Hl0 & Hf0).
  apply io_ReadFull_inr in H1 as (Hp1 & Hl1 & Hf1).
  apply io_ReadFull_inr in H2 as (Hp2 & Hl2 & Hf2).
  unfold io_ReadAll in Hall.
  destruct (fin s2) eqn:Hf; [discriminate|]. injection Hall as <-.
  apply Byte.byte_dec_bl in Hpk.
  rewrite (one_byte l Hl0), Hpk in Hp0.
  rewrite (one_byte l0 Hl1) in Hp1.
  apply Nat.ltb_ge in Hlen.
  split; [|split; [exact Hl2|rewrite length_skipn; lia]].
  rewrite firstn_skipn.
  destruct s as [ps fs]. cbn in *. f_equal.
  - rewrite Hp0, Hp1, Hp2. reflexivity.
  - congruence.
Qed.

(** X6: a packet is sent on [packetCh] only for a complete frame on a
    stream the peer closed cleanly: the packet type, a length byte, that
    many address bytes, and at least sixteen more bytes; the packet
    carries the address as [From] and all but the last sixteen bytes as
    [Buf].  A stream that ends with a read error, or too early, never
    yields a packet. *)
Theorem delivered_packet_is_the_frame
        (E : Env) (conn : Connection) (t : QuicTransport) :
  packetCh (handleConnection E conn t) <> packetCh t ->
  exists L a buf dg ts,
    AcceptStream conn
    = inr {| pending := packet :: L :: a ++ buf ++ dg; fin := None |}
    /\ length a = int_of_byte L
    /\ length dg = md5.Size
    /\ packetCh (handleConnection E conn t)
       = packetCh t ++ [ {| Buf := buf; From := string_of_list_byte a;
                            Timestamp := ts |} ].
Proof.
  intros Hne. hc_cases E conn t r Hr; subst r; cbn in Hne |- *;
    try solve [exfalso; apply Hne; reflexivity];
    match goal with
    | H0 : io_ReadFull ?s 1 = inr (?l, ?s0),
      H1 : io_ReadFull ?s0 1 = inr (?l0, ?s1),
      H2 : io_ReadFull ?s1 _ = inr (?l1, ?s2),
      H3 : io_ReadAll ?s2 = inr ?l2,
      Hpk : Byte.eqb (nth 0 ?l _) packet = true,
      Hlen : (length ?l2 <? _)%nat = false |- _ =>
        destruct (frame_of_reads _ _ _ _ _ _ _ _ H0 Hpk H1 H2 H3 Hlen)
          as (Hs' & Ha & Hd)
    end;
    rewrite Hs'; do 5 eexists;
    (split; [reflexivity|]); (split; [exact Ha|]);
    (split; [exact Hd|reflexivity]).
Qed.

Lemma delivered_packet_is_the_frame_witness :
  exists L a buf dg ts,
    AcceptStream (conn_of a_peer bad_frame)
    = inr {| pending := packet :: L :: a ++ buf ++ dg; fin := None |}
    /\ length a = int_of_byte L
    /\ length dg = md5.Size
    /\ packetCh (handleConnection env_ok (conn_of a_peer bad_frame) t_demo)
       = packetCh t_demo
           ++ [ {| Buf := buf; From := string_of_list_byte a;
                   Timestamp := ts |} ].
Proof.
  apply (delivered_packet_is_the_frame env_ok (conn_of a_peer bad_frame)
           t_demo).
  vm_compute. discriminate.
Defined.

(** ** Sending a packet *)

Lemma closes_app tr1 tr2 : closes (tr1 ++ tr2) = (closes tr1 + closes tr2)%nat.
Proof.
  induction tr1 as [|e tr1 IH]; [reflexivity|].
  destruct e; cbn; rewrite ?IH; reflexivity.
Qed.

(** X7: [writeTo] closes the connection it dialled exactly once,
    whichever step fails or none; when the dial itself fails there is
    nothing to close and the error of the dial is returned. *)
Theorem writeTo_closes_what_it_dialled
        (E : Env) (b : list byte) (addr : string) (t : QuicTransport) :
  exists evs,
    trace (fst (writeTo E b addr t))
    = trace t ++ EvTLSDial (PacketDialTimeout (cfg t)) "udp" addr :: evs
    /\ match tls_DialWithDialer E (trace t) (PacketDialTimeout (cfg t))
               "udp" addr with
       | inr _ => closes evs = 1%nat
       | inl err => evs = [] /\ snd (writeTo E b addr t) = Some err
       end.
Proof.
  unfold writeTo, getConnection.
  destruct (tls_DialWithDialer E (trace t) (PacketDialTimeout (cfg t))
              "udp" addr) as [err|c].
  - exists []. cbn. repeat split.
  - unfold writeTo_body, getAdvertisedAddr. go_unfold. cbn.
    repeat (break_match; cbn in *);
      eexists; (split; [rewrite <- ?app_assoc; cbn; reflexivity|]);
      reflexivity.
Qed.

(** X8: when [writeTo] returns nil, the advertised address has at
    most 255 bytes, the payload and its MD5 went out whole after the
    header, and the connection was closed.  The count of the header
    write is the one the code does not look at. *)
Theorem writeTo_nil_means_written
        (E : Env) (b : list byte) (addr : string) (t : QuicTransport) :
  snd (writeTo E b addr t) = None ->
  (String.length (advertiseAddr t) <= 255)%nat
  /\ exists n evs,
       trace (fst (writeTo E b addr t)) = trace t ++ evs
       /\ wire evs
          = firstn n (packet
                        :: byte_of_int (String.length (advertiseAddr t))
                        :: list_byte_of_string (advertiseAddr t))
              ++ b ++ md5.Sum b
       /\ closes evs = 1%nat.
Proof.
  intros Hnil.
  remember (writeTo E b addr t) as r eqn:Hr.
  unfold writeTo, getConnection, writeTo_body, getAdvertisedAddr in Hr.
  go_unfold. cbn in Hr.
  repeat (break_match_in Hr; cbn in Hr); subst r; cbn in Hnil |- *;
    try discriminate;
    (split; [apply Nat.ltb_ge; assumption|]);
    repeat match goal with
           | H : negb (_ =? _)%nat = false |- _ =>
               apply negb_false_iff, Nat.eqb_eq in H; subst
           end;
    match goal with
    | H : Write _ _ (packet :: _) = (?n, _) |- _ => exists n
    end;
    eexists; (split; [rewrite <- ?app_assoc; reflexivity|]);
    cbn; rewrite !firstn_all, ?app_nil_r, <- ?app_assoc;
    (split; reflexivity).
Qed.

Lemma writeTo_nil_means_written_witness :
  (String.length (advertiseAddr t_demo) <= 255)%nat
  /\ exists n evs,
       trace (fst (writeTo env_ok hi "10.0.0.2:7946" t_demo))
       = trace t_demo ++ evs
       /\ wire evs
          = firstn n (packet
                        :: byte_of_int (String.length (advertiseAddr t_demo))
                        :: list_byte_of_string (advertiseAddr t_demo))
              ++ hi ++ md5.Sum hi
       /\ closes evs = 1%nat.
Proof.
  apply (writeTo_nil_means_written env_ok hi "10.0.0.2:7946" t_demo).
  vm_compute. reflexivity.
Defined.

(** X9: on a dialled connection and with an address that fits,
    [writeTo] sets a deadline only when [PacketWriteTimeout] is
    positive: once, before the first write, at the time read after the
    dial plus the timeout.  If setting it fails, nothing is written, the
    connection is closed and the error is returned with the prefix
    "setting deadline: ". *)
Theorem writeTo_deadline
        (E : Env) (b : list byte) (addr : string) (t : QuicTransport)
        (c : Conn) :
  tls_DialWithDialer E (trace t) (PacketDialTimeout (cfg t)) "udp" addr
    = inr c ->
  (String.length (advertiseAddr t) <= 255)%nat ->
  let dialled :=
    trace t ++ [EvTLSDial (PacketDialTimeout (cfg t)) "udp" addr] in
  let deadline := Now E dialled + PacketWriteTimeout (cfg t) in
  exists rest,
    trace (fst (writeTo E b addr t))
    = dialled
        ++ (if 0 <? PacketWriteTimeout (cfg t)
            then [EvSetDeadline deadline] else [])
        ++ rest
    /\ deadlines rest = []
    /\ (forall e,
          (0 <? PacketWriteTimeout (cfg t)) = true ->
          SetDeadline c dialled deadline = Some e ->
          snd (writeTo E b addr t) = Some ("setting deadline: " ++ e)%string
          /\ rest = [EvClose]).
Proof.
  intros Hdial Hle. cbn zeta. apply Nat.ltb_ge in Hle.
  unfold writeTo, getConnection. rewrite Hdial.
  unfold writeTo_body, getAdvertisedAddr. go_unfold. cbn. rewrite Hle. cbn.
  destruct (0 <? PacketWriteTimeout (cfg t)) eqn:Hto; cbn;
    repeat (break_match; cbn in *);
    eexists; (split; [rewrite <- ?app_assoc; cbn; reflexivity|]);
    (split; [reflexivity|]);
    intros e' Hpos He; try discriminate;
    try (injection He as <-; split; reflexivity).
Qed.

Lemma writeTo_deadline_witness :
  let dialled :=
    trace t_demo
      ++ [EvTLSDial (PacketDialTimeout (cfg t_demo)) "udp" "10.0.0.2:7946"] in
  let deadline := Now env_ok dialled + PacketWriteTimeout (cfg t_demo) in
  exists rest,
    trace (fst (writeTo env_ok hi "10.0.0.2:7946" t_demo))
    = dialled
        ++ (if 0 <? PacketWriteTimeout (cfg t_demo)
            then [EvSetDeadline deadline] else [])
        ++ rest
    /\ deadlines rest = []
    /\ (forall e,
          (0 <? PacketWriteTimeout (cfg t_demo)) = true ->
          SetDeadline okConn dialled deadline = Some e ->
          snd (writeTo env_ok hi "10.0.0.2:7946" t_demo)
          = Some ("setting deadline: " ++ e)%string
          /\ rest = [EvClose]).
Proof.
  apply (writeTo_deadline env_ok hi "10.0.0.2:7946" t_demo okConn).
  - reflexivity.
  - vm_compute. lia.
Defined.

(** X10: [WriteTo] adds to the trace of [writeTo] one line when the
    send failed: at warn level, or, for an error that contains
    "connection refused", at debug level and only when
    [TransportDebug] is set.  It changes the three counters of sent
    packets and nothing else of the transport. *)
Theorem WriteTo_logs_and_counts
        (E : Env) (b : list byte) (addr : string) (t : QuicTransport) :
  let r := fst (WriteTo E b addr t) in
  trace r
  = trace (fst (writeTo E b addr t))
      ++ match snd (writeTo E b addr t) with
         | None => []
         | Some e =>
             if strings_Contains e "connection refused"
             then dbg t "WriteTo failed"
             else [EvLog Warn "WriteTo failed"]
         end
  /\ (forall c,
        c <> sentPackets -> c <> sentPacketsBytes ->
        c <> sentPacketsErrors -> counters r c = counters t c)
  /\ packetCh r = packetCh t /\ connCh r = connCh t
  /\ quicListeners r = quicListeners t /\ shutdown r = shutdown t
  /\ advertiseAddr r = advertiseAddr t /\ cfg r = cfg t /\ wg r = wg t.
Proof.
  cbn zeta. unfold WriteTo, dbg. go_unfold. cbn.
  rewrite writeTo_core. rewrite (writeTo_core E b addr t).
  change (core _) with (core t).
  destruct (writeTo E b addr (core t)) as [t1 [e|]]; cbn.
  - destruct (strings_Contains e "connection refused");
      [destruct (TransportDebug (cfg t))|]; cbn;
      rewrite ?app_nil_r;
      (split; [reflexivity|]);
      (split; [intros c H1 H2 H3; destruct c; try contradiction;
               counters_done|]);
      repeat split.
  - rewrite app_nil_r. split; [reflexivity|].
    split; [intros c H1 H2 H3; destruct c; try contradiction;
            counters_done|].
    repeat split.
Qed.

(** ** Opening a stream *)

(** X11: [DialTimeout] counts every call in [outgoingStreams] and
    returns either the dialled connection, left open, after a [Write]
    of the stream type byte that reported no error, with no error
    counted, or an error, counted once in [outgoingStreamErrors]: the
    error the dial returned, with nothing to close, or the error that
    [Write] of the stream type byte returned, with the connection
    closed. *)
Theorem DialTimeout_outcomes
        (E : Env) (addr : string) (timeout : Duration) (t : QuicTransport) :
  let r := DialTimeout E addr timeout t in
  let dial := EvTLSDial timeout "udp" addr in
  counters (fst r) outgoingStreams = S (counters t outgoingStreams)
  /\ match snd r with
     | (Some c, None) =>
         tls_DialWithDialer E (trace t) timeout "udp" addr = inr c
         /\ counters (fst r) outgoingStreamErrors
            = counters t outgoingStreamErrors
         /\ exists n,
              Write c (trace t ++ [dial]) [stream] = (n, None)
              /\ trace (fst r) = trace t ++ [dial; EvWrite [stream] n]
     | (None, Some e) =>
         counters (fst r) outgoingStreamErrors
         = S (counters t outgoingStreamErrors)
         /\ ((tls_DialWithDialer E (trace t) timeout "udp" addr = inl e
              /\ trace (fst r) = trace t ++ [dial])
             \/ (exists c n,
                   tls_DialWithDialer E (trace t) timeout "udp" addr = inr c
                   /\ Write c (trace t ++ [dial]) [stream] = (n, Some e)
                   /\ trace (fst r)
                      = trace t ++ [dial; EvWrite [stream] n; EvClose]))
     | _ => False
     end.
Proof.
  cbn zeta. unfold DialTimeout, getConnection. go_unfold. cbn.
  destruct (tls_DialWithDialer E (trace t) timeout "udp" addr) as [err|c];
    cbn.
  - split; [counters_done|]. split; [counters_done|]. left. now split.
  - destruct (Write c _ _) as [n [e|]] eqn:Hw; cbn;
      (split; [counters_done|]); (split; [counters_done|]).
    + right. exists c, n. rewrite <- !app_assoc.
      split; [reflexivity|]. split; [exact Hw | reflexivity].
    + split; [counters_done|]. exists n. rewrite <- !app_assoc.
      split; [exact Hw | reflexivity].
Qed.

Lemma handleConnection_stream E conn t rest f :
  AcceptStream conn = inr {| pending := stream :: rest; fin := f |} ->
  connCh (handleConnection E conn t) = connCh t ++ [conn]
  /\ counters (handleConnection E conn t) incomingStreams
     = S (counters t incomingStreams).
Proof.
  intros Hs. hc_unfold. rewrite Hs.
  destruct (TransportDebug (cfg t)) eqn:Hdbg; cbn;
    rewrite ?io_ReadFull_cons; cbn; split; counters_done.
Qed.

(** X12: the byte a successful [DialTimeout] writes makes the peer's
    [handleConnection] hand the accepted connection over on [connCh],
    whatever the dialler writes on the stream afterwards. *)
Theorem dialled_stream_is_handed_over
        (E E' : Env) (addr remote : string) (timeout : Duration)
        (t peer : QuicTransport) (c : Conn) (more : list byte) :
  tls_DialWithDialer E (trace t) timeout "udp" addr = inr c ->
  Write c (trace t ++ [EvTLSDial timeout "udp" addr]) [stream] = (1%nat, None) ->
  snd (DialTimeout E addr timeout t) = (Some c, None)
  /\ exists evs,
       trace (fst (DialTimeout E addr timeout t)) = trace t ++ evs
       /\ wire evs = [stream]
       /\ let conn := conn_of remote (wire evs ++ more) in
          connCh (handleConnection E' conn peer) = connCh peer ++ [conn]
          /\ counters (handleConnection E' conn peer) incomingStreams
             = S (counters peer incomingStreams).
Proof.
  intros Hdial Hw.
  unfold DialTimeout, getConnection. go_unfold. cbn.
  rewrite Hdial. cbn. rewrite Hw. cbn.
  split; [reflexivity|].
  eexists. split; [rewrite <- !app_assoc; reflexivity|].
  split; [reflexivity|].
  cbn. apply (handleConnection_stream E' _ peer more None). reflexivity.
Qed.

Lemma dialled_stream_is_handed_over_witness :
  snd (DialTimeout env_ok "10.0.0.2:7946" Second t_demo) = (Some okConn, None)
  /\ exists evs,
       trace (fst (DialTimeout env_ok "10.0.0.2:7946" Second t_demo))
       = trace t_demo ++ evs
       /\ wire evs = [stream]
       /\ let conn := conn_of a_peer (wire evs ++ hi) in
          connCh (handleConnection env_ok conn t_demo)
          = connCh t_demo ++ [conn]
          /\ counters (handleConnection env_ok conn t_demo) incomingStreams
             = S (counters t_demo incomingStreams).
Proof.
  apply (dialled_stream_is_handed_over env_ok env_ok "10.0.0.2:7946" a_peer
           Second t_demo t_demo okConn hi).
  - reflexivity.
  - reflexivity.
Defined.

(** ** Shutdown and the acceptors *)

Lemma close_listeners_spec (ls : list Listener) : forall t,
  let r := fold_left
             (fun t' ln => set_trace t' (trace t' ++ [EvListenerClose ln]))
             ls t in
  trace r = trace t ++ map EvListenerClose ls
  /\ cfg r = cfg t /\ packetCh r = packetCh t /\ connCh r = connCh t
  /\ wg r = wg t /\ quicListeners r = quicListeners t
  /\ shutdown r = shutdown t /\ advertiseAddr r = advertiseAddr t
  /\ counters r = counters t.
Proof.
  induction ls as [|ln ls IH]; intros t; cbn zeta; cbn [fold_left map].
  - rewrite app_nil_r. repeat split.
  - destruct (IH (set_trace t (trace t ++ [EvListenerClose ln])))
      as (Ht & H).
    cbn in Ht, H. rewrite Ht, <- app_assoc. split; [reflexivity|exact H].
Qed.


Lemma quicListen_loop_running script : forall d t,
  shutdown t <> 1 ->
  Forall (fun tick => tick <> ShutdownStored) script ->
  exists evs d',
    quicListen_loop script d t
    = (set_trace t (trace t ++ evs), Accepting d')
    /\ spawned evs = accepted script
    /\ length (sleeps evs) = accept_errors script.
Proof.
  induction script as [|tick script IH]; intros d t Hs Hall.
  - exists [], d. cbn. rewrite app_nil_r. split; [now destruct t|].
    split; reflexivity.
  - inversion Hall as [|? ? Htick Hall']; subst.
    destruct tick as [[err|conn]|]; [| |contradiction];
      cbn [quicListen_loop]; unfold quicListen_iteration; go_unfold;
      cbn [shutdown trace set_trace].
    + destruct (Z.eqb_spec (shutdown t) 1) as [|_]; [contradiction|].
      match goal with
      | |- context [quicListen_loop script ?d' ?t'] =>
          destruct (IH d' t' Hs Hall') as (evs & d'' & Hloop & Hsp & Hsl);
          rewrite Hloop
      end.
      cbn [trace set_trace]. eexists (_ :: _ :: evs), d''.
      split; [rewrite <- !app_assoc; reflexivity|].
      cbn. split; [exact Hsp | now rewrite Hsl].
    + match goal with
      | |- context [quicListen_loop script ?d' ?t'] =>
          destruct (IH d' t' Hs Hall') as (evs & d'' & Hloop & Hsp & Hsl);
          rewrite Hloop
      end.
      cbn [trace set_trace]. eexists (_ :: evs), d''.
      split; [rewrite <- !app_assoc; reflexivity|].
      cbn. split; [now rewrite Hsp | exact Hsl].
Qed.

(** X14: while the shutdown flag is not set, [quicListen] does not
    leave its loop, whatever [Accept] returns: every accepted
    connection gets its [handleConnection] goroutine, in the order of
    acceptance, every error is followed by one sleep, and the wait
    group is not signalled. *)
Theorem accept_loop_runs_until_shutdown
        (ln : Listener) (script : list Tick) (t : QuicTransport) :
  shutdown t <> 1 ->
  Forall (fun tick => tick <> ShutdownStored) script ->
  exists evs d,
    quicListen ln script t = (set_trace t (trace t ++ evs), Accepting d)
    /\ spawned evs = accepted script
    /\ length (sleeps evs) = accept_errors script.
Proof.
  intros Hs Hall.
  destruct (quicListen_loop_running script 0 t Hs Hall)
    as (evs & d & Hloop & Hsp & Hsl).
  exists evs, d. unfold quicListen. rewrite Hloop. now repeat split.
Qed.

Lemma accept_loop_runs_until_shutdown_witness :
  let script :=
    [ AcceptReturns (inl "timeout"%string);
      AcceptReturns (inr (conn_of a_peer bad_frame));
      AcceptReturns (inr (conn_of a_peer [x01])) ] in
  exists evs d,
    quicListen {| Addr := {| ip_of := loopback; Port := 7946 |} |}
      script t_demo
    = (set_trace t_demo (trace t_demo ++ evs), Accepting d)
    /\ spawned evs = accepted script
    /\ length (sleeps evs) = accept_errors script.
Proof.
  apply (accept_loop_runs_until_shutdown
           {| Addr := {| ip_of := loopback; Port := 7946 |} |}
           [ AcceptReturns (inl "timeout"%string);
             AcceptReturns (inr (conn_of a_peer bad_frame));
             AcceptReturns (inr (conn_of a_peer [x01])) ] t_demo).
  - vm_compute. discriminate.
  - repeat constructor; discriminate.
Defined.

(** ** What the constructor leaves behind *)

Lemma started_app tr1 tr2 : started (tr1 ++ tr2) = started tr1 ++ started tr2.
Proof.
  induction tr1 as [|e tr1 IH]; [reflexivity|].
  destruct e; cbn; rewrite ?IH; reflexivity.
Qed.

Lemma closed_listeners_app tr1 tr2 :
  closed_listeners (tr1 ++ tr2)
  = closed_listeners tr1 ++ closed_listeners tr2.
Proof.
  induction tr1 as [|e tr1 IH]; [reflexivity|].
  destruct e; cbn; rewrite ?IH; reflexivity.
Qed.

Lemma udp4_listen_only evs :
  Forall is_udp4_listen evs -> started evs = [] /\ closed_listeners evs = [].
Proof.
  induction 1 as [|e evs He _ [IH1 IH2]]; [now split|].
  destruct e; cbn in *; try contradiction; now split.
Qed.

Lemma closed_listeners_map ls :
  closed_listeners (map EvListenerClose ls) = ls
  /\ started (map EvListenerClose ls) = [].
Proof. induction ls as [|ln ls [IH1 IH2]]; cbn; [|rewrite IH1]; now split. Qed.

Lemma started_map ls :
  started (map EvGoQuicListen ls) = ls
  /\ closed_listeners (map EvGoQuicListen ls) = [].
Proof. induction ls as [|ln ls [IH1 IH2]]; cbn; [|rewrite IH1]; now split. Qed.

Lemma skipn_nth_error {A : Type} (l : list A) : forall i x,
  nth_error l i = Some x -> skipn i l = x :: skipn (S i) l.
Proof.
  induction l as [|y l IH]; intros [|i] x H; try discriminate.
  - injection H as ->. reflexivity.
  - cbn in H. apply IH in H. exact H.
Qed.

(** The loop that starts the goroutines, when the listeners are there. *)
Lemma NewQuicTransport_start_run n : forall i t,
  (i + n <= length (quicListeners t))%nat ->
  let r := NewQuicTransport_start i n t in
  snd r = inr tt
  /\ trace (fst r)
     = trace t ++ map EvGoQuicListen (firstn n (skipn i (quicListeners t)))
  /\ wg (fst r) = wg t + Z.of_nat n
  /\ quicListeners (fst r) = quicListeners t
  /\ cfg (fst r) = cfg t /\ shutdown (fst r) = shutdown t
  /\ counters (fst r) = counters t /\ advertiseAddr (fst r) = advertiseAddr t
  /\ packetCh (fst r) = packetCh t /\ connCh (fst r) = connCh t.
Proof.
  induction n as [|n IH]; intros i t Hlen; cbn zeta.
  - cbn. rewrite app_nil_r, Z.add_0_r. repeat split.
  - cbn [NewQuicTransport_start]. go_unfold. cbn.
    destruct (nth_error (quicListeners t) i) as [ln|] eqn:Hnth.
    + destruct (IH (S i)
                  (set_trace (set_wg t (wg t + 1))
                     (trace t ++ [EvGoQuicListen ln])))
        as (Hr & Ht & Hw & Hl & Hrest); [cbn; lia|].
      cbn in Hr, Ht, Hw, Hl, Hrest |- *.
      split; [exact Hr|]. split.
      * rewrite Ht, <- app_assoc, (skipn_nth_error _ _ _ Hnth).
        reflexivity.
      * split; [lia|]. split; [exact Hl | exact Hrest].
    + apply nth_error_None in Hnth. lia.
Qed.

Lemma NewQuicTransport_listeners_frame E addrs : forall port t,
  let r := fst (NewQuicTransport_listeners E addrs port t) in
  shutdown r = shutdown t /\ wg r = wg t /\ counters r = counters t
  /\ advertiseAddr r = advertiseAddr t /\ packetCh r = packetCh t
  /\ connCh r = connCh t /\ cfg r = cfg t.
Proof.
  induction addrs as [|addr addrs IH]; intros port t; cbn zeta.
  - cbn. repeat split.
  - loop_cases E addr t port; cbn [fst]; try (cbn; repeat split; fail).
    match goal with
    | |- context [NewQuicTransport_listeners E addrs ?p ?t'] =>
        apply (IH p t')
    end.
Qed.

(** A loop that ends in an error has built fewer listeners than there
    are addresses. *)
Lemma NewQuicTransport_listeners_short E addrs : forall port t t1 e,
  NewQuicTransport_listeners E addrs port t = (t1, inl e) ->
  exists new,
    quicListeners t1 = quicListeners t ++ new
    /\ (length new < length addrs)%nat.
Proof.
  induction addrs as [|addr addrs IH]; intros port t t1 e; [discriminate|].
  loop_cases E addr t port;
    try (intros [= <- <-]; exists []; cbn; rewrite app_nil_r;
         split; [reflexivity|lia]).
  intros Hloop. apply IH in Hloop as (new & Hl & Hn).
  cbn in Hl. eexists (_ :: new). rewrite Hl, <- app_assoc.
  split; [reflexivity|cbn; lia].
Qed.

Lemma NewQuicTransport_listeners_unparseable E addrs a :
  In a addrs -> ParseIP E a = None ->
  forall port t, exists err,
    snd (NewQuicTransport_listeners E addrs port t) = inl (Some err).
Proof.
  intros Hin Hp. induction addrs as [|addr addrs IH]; [destruct Hin|].
  intros port t.
  loop_cases E addr t port; cbn [snd]; eauto.
  destruct Hin as [->|Hin]; [|now apply IH].
  rewrite Hp in Hparse. discriminate.
Qed.

Lemma effective_config_nonempty config :
  BindAddrs (effective_config config) <> []
  /\ BindPort (effective_config config) = BindPort config.
Proof.
  unfold effective_config.
  destruct (BindAddrs config) eqn:Hb; cbn; rewrite ?Hb; split;
    (discriminate || reflexivity).
Qed.

(** A successful construction, taken apart. *)
Lemma NewQuicTransport_ok_inv E config t :
  NewQuicTransport E config = (t, None) ->
  let config' := effective_config config in
  exists t1,
    NewQuicTransport_listeners E (BindAddrs config') (BindPort config')
      (fresh config') = (t1, inr tt)
    /\ length (quicListeners t1) = length (BindAddrs config')
    /\ t = fst (NewQuicTransport_start 0 (length (BindAddrs config')) t1).
Proof.
  intros Hnew. cbn zeta.
  pose proof (NewQuicTransport_listeners_error E
                (BindAddrs (effective_config config))
                (BindPort (effective_config config))
                (fresh (effective_config config))) as Hnone.
  destruct (NewQuicTransport_cases E config)
    as [(err & _ & Hr)|[(t1 & err & Hl & Hr)|[(t1 & Hl & Hr)|(t1 & Hl & Hr)]]];
    rewrite Hnew in Hr; try discriminate.
  - rewrite Hl in Hnone. now contradiction Hnone.
  - exists t1. split; [exact Hl|].
    destruct (NewQuicTransport_listeners_ports _ _ _ _ _ Hl)
      as (_ & new & evs & Hls & _ & Hn & _).
    cbn in Hls. split; [now rewrite Hls|].
    cbn zeta in Hr.
    destruct (snd (NewQuicTransport_start 0 _ t1)) as [[err|]|[]];
      [discriminate| |]; now injection Hr.
Qed.

(** X15: a transport the constructor returns is running: one listener
    and one [quicListen] goroutine per bind address, in order, the wait
    group counting them, no listener closed, the shutdown flag clear,
    every counter at zero, both channels empty and no advertised address
    yet; an empty list of bind addresses was replaced by 0.0.0.0. *)
Theorem constructed_transport_is_running
        (E : Env) (config : QuicTransportConfig) (t : QuicTransport) :
  NewQuicTransport E config = (t, None) ->
  cfg t = effective_config config
  /\ (1 <= length (quicListeners t))%nat
  /\ length (quicListeners t) = length (BindAddrs (cfg t))
  /\ started (trace t) = quicListeners t
  /\ closed_listeners (trace t) = []
  /\ wg t = Z.of_nat (length (quicListeners t))
  /\ shutdown t = 0
  /\ (forall c, counters t c = O)
  /\ packetCh t = [] /\ connCh t = [] /\ advertiseAddr t = ""%string.
Proof.
  intros Hnew.
  destruct (NewQuicTransport_ok_inv E config t Hnew) as (t1 & Hl & Hn & ->).
  destruct (NewQuicTransport_listeners_trace E
              (BindAddrs (effective_config config))
              (BindPort (effective_config config))
              (fresh (effective_config config))) as (evs & Ht & Hevs).
  pose proof (NewQuicTransport_listeners_frame E
                (BindAddrs (effective_config config))
                (BindPort (effective_config config))
                (fresh (effective_config config))) as Hfr.
  rewrite Hl in Ht, Hfr. cbn in Ht, Hfr.
  destruct Hfr as (Hsh & Hwg & Hcn & Hadv & Hpk & Hcc & Hcfg).
  destruct (NewQuicTransport_start_run
              (length (BindAddrs (effective_config config))) 0 t1)
    as (_ & Htr & Hw & Hls & Hc & Hs & Hcs & Ha & Hp & Hco);
    [cbn; lia|].
  destruct (udp4_listen_only evs Hevs) as (Hst & Hcl).
  destruct (effective_config_nonempty config) as (Hne & _).
  rewrite Hls, Hc, Htr, Hw, Hs, Hcs, Ha, Hp, Hco.
  rewrite Hcfg, Hsh, Hwg, Hcn, Hadv, Hpk, Hcc, Ht.
  cbn [skipn]. rewrite <- Hn, firstn_all.
  rewrite started_app, closed_listeners_app, Hst, Hcl.
  destruct (started_map (quicListeners t1)) as (-> & ->).
  repeat split; try lia.
  rewrite Hn. destruct (BindAddrs (effective_config config));
    [contradiction|cbn; lia].
Qed.

Lemma constructed_transport_is_running_witness :
  let t := fst (NewQuicTransport env_ok cfg_auto) in
  cfg t = effective_config cfg_auto
  /\ (1 <= length (quicListeners t))%nat
  /\ length (quicListeners t) = length (BindAddrs (cfg t))
  /\ started (trace t) = quicListeners t
  /\ closed_listeners (trace t) = []
  /\ wg t = Z.of_nat (length (quicListeners t))
  /\ shutdown t = 0
  /\ (forall c, counters t c = O)
  /\ packetCh t = [] /\ connCh t = [] /\ advertiseAddr t = ""%string.
Proof.
  apply (constructed_transport_is_running env_ok cfg_auto).
  vm_compute. reflexivity.
Defined.

Lemma Shutdown_effect t :
  shutdown (fst (Shutdown t)) = 1
  /\ trace (fst (Shutdown t))
     = trace t ++ map EvListenerClose (quicListeners t)
  /\ quicListeners (fst (Shutdown t)) = quicListeners t
  /\ wg (fst (Shutdown t)) = wg t
  /\ cfg (fst (Shutdown t)) = cfg t.
Proof.
  unfold Shutdown. cbn [fst].
  destruct (close_listeners_spec (quicListeners (set_shutdown t 1))
              (set_shutdown t 1))
    as (Ht & Hc & _ & _ & Hw & Hl & Hs & _).
  cbn in Ht, Hc, Hw, Hl, Hs. now repeat split.
Qed.

(** The ways [NewQuicTransport] ends, with the TLS configuration. *)
Lemma NewQuicTransport_ends E config :
  let config' := effective_config config in
  let r := NewQuicTransport E config in
  let loop :=
    NewQuicTransport_listeners E (BindAddrs config') (BindPort config')
      (fresh config') in
  (exists e, GetTLSConfig E = Some e
     /\ r = (fresh config',
             Some ("unable to create TLS config: " ++ e)%string))
  \/ (GetTLSConfig E = None
      /\ exists err, snd loop = inl (Some err)
                     /\ r = (fst (Shutdown (fst loop)), Some err))
  \/ (GetTLSConfig E = None
      /\ snd loop = inr tt
      /\ length (quicListeners (fst loop)) = length (BindAddrs config')
      /\ r = (fst (NewQuicTransport_start 0 (length (BindAddrs config'))
                     (fst loop)), None)).
Proof.
  cbn zeta.
  pose proof (NewQuicTransport_listeners_error E
                (BindAddrs (effective_config config))
                (BindPort (effective_config config))
                (fresh (effective_config config))) as Hnone.
  unfold NewQuicTransport.
  fold (effective_config config). fold (fresh (effective_config config)).
  destruct (GetTLSConfig E) as [e|]; [left; eauto|right].
  unfold run, bind.
  destruct (NewQuicTransport_listeners E _ _ _) as [t1 [[err|]|[]]] eqn:Hl;
    cbn [fst snd] in *.
  - left. split; [reflexivity|]. eauto.
  - now contradiction Hnone.
  - right. split; [reflexivity|]. split; [reflexivity|].
    destruct (NewQuicTransport_listeners_ports _ _ _ _ _ Hl)
      as (_ & new & evs & Hls & _ & Hn & _).
    cbn in Hls. rewrite Hls. split; [exact Hn|].
    destruct (NewQuicTransport_start_run
                (length (BindAddrs (effective_config config))) 0 t1)
      as (Hr & _); [rewrite Hls; cbn; lia|].
    destruct (NewQuicTransport_start 0 _ t1) as [t2 res].
    cbn in Hr. subst res. reflexivity.
Qed.

(** X16: when the constructor returns an error, either the TLS
    configuration could not be built and no socket was opened, or the
    listener loop failed at some address: then the shutdown flag is
    set, every listener built before the failure has been closed, in
    order, and no [quicListen] goroutine was started. *)
Theorem failed_construction_cleans_up
        (E : Env) (config : QuicTransportConfig) (err : error) :
  snd (NewQuicTransport E config) = Some err ->
  let t := fst (NewQuicTransport E config) in
  (exists e, GetTLSConfig E = Some e
             /\ err = ("unable to create TLS config: " ++ e)%string
             /\ trace t = [] /\ quicListeners t = [] /\ shutdown t = 0)
  \/ (GetTLSConfig E = None
      /\ shutdown t = 1
      /\ closed_listeners (trace t) = quicListeners t
      /\ started (trace t) = []
      /\ wg t = 0
      /\ (length (quicListeners t) < length (BindAddrs (cfg t)))%nat).
Proof.
  intros Herr. cbn zeta.
  destruct (NewQuicTransport_listeners_trace E
              (BindAddrs (effective_config config))
              (BindPort (effective_config config))
              (fresh (effective_config config))) as (evs & Ht & Hevs).
  pose proof (NewQuicTransport_listeners_frame E
                (BindAddrs (effective_config config))
                (BindPort (effective_config config))
                (fresh (effective_config config))) as Hfr.
  cbn zeta in Hfr. destruct Hfr as (_ & Hwg & _ & _ & _ & _ & Hcfg).
  cbn [fresh trace app] in Ht.
  destruct (NewQuicTransport_ends E config)
    as [(e & Htl & Hr)|[(Htl & e & Hl & Hr)|(Htl & Hl & _ & Hr)]];
    rewrite Hr in Herr |- *; cbn [fst snd] in Herr |- *;
    [| |discriminate].
  - left. exists e. injection Herr as <-. now repeat split.
  - right. split; [exact Htl|].
    destruct (Shutdown_effect
                (fst (NewQuicTransport_listeners E
                        (BindAddrs (effective_config config))
                        (BindPort (effective_config config))
                        (fresh (effective_config config)))))
      as (Hs & Htr & Hls & Hw & Hc).
    rewrite Hs, Htr, Hls, Hw, Hc, Hwg, Hcfg, Ht.
    destruct (udp4_listen_only evs Hevs) as (Hst & Hcl).
    rewrite closed_listeners_app, started_app, Hst, Hcl.
    destruct (closed_listeners_map
                (quicListeners
                   (fst (NewQuicTransport_listeners E
                           (BindAddrs (effective_config config))
                           (BindPort (effective_config config))
                           (fresh (effective_config config))))))
      as (-> & ->).
    cbn [fresh trace wg cfg app].
    repeat split.
    destruct (NewQuicTransport_listeners E _ _ _) as [t1 res] eqn:Hloop.
    cbn [fst snd] in *. subst res.
    apply NewQuicTransport_listeners_short in Hloop as (new & Hn & Hlt).
    cbn in Hn. now rewrite Hn.
Qed.

Lemma failed_construction_cleans_up_witness :
  let t := fst (NewQuicTransport env_ok cfg_v6) in
  (exists e, GetTLSConfig env_ok = Some e
             /\ ("failed to start UDP listener on :: port 7946: "
                   ++ "non-IPv4 address")%string
                = ("unable to create TLS config: " ++ e)%string
             /\ trace t = [] /\ quicListeners t = [] /\ shutdown t = 0)
  \/ (GetTLSConfig env_ok = None
      /\ shutdown t = 1
      /\ closed_listeners (trace t) = quicListeners t
      /\ started (trace t) = []
      /\ wg t = 0
      /\ (length (quicListeners t) < length (BindAddrs (cfg t)))%nat).
Proof.
  apply (failed_construction_cleans_up env_ok cfg_v6).
  vm_compute. reflexivity.
Defined.

(** X17: with a bind port other than 0, a successful construction asks
    for that port at every bind address, every listener reports it, and
    [GetAutoBindPort] returns it. *)
Theorem fixed_bind_port_is_kept
        (E : Env) (config : QuicTransportConfig) (t : QuicTransport) :
  BindPort config <> 0 ->
  NewQuicTransport E config = (t, None) ->
  Forall (fun ln => Port (Addr ln) = BindPort config) (quicListeners t)
  /\ requested_ports (trace t)
     = repeat (BindPort config) (length (BindAddrs (cfg t)))
  /\ GetAutoBindPort t = Some (BindPort config).
Proof.
  intros Hport Hnew.
  destruct (effective_config_nonempty config) as (Hne & Hp).
  destruct (NewQuicTransport_ok_inv E config t Hnew) as (t1 & Hl & Hn & ->).
  destruct (NewQuicTransport_listeners_ports _ _ _ _ _ Hl)
    as (Hc & new & evs & Hls & Htr & Hnn & Hfix & _).
  rewrite Hp in Hfix. destruct (Hfix Hport) as (Hall & Hreq).
  cbn in Hls, Htr, Hc.
  destruct (NewQuicTransport_start_run
              (length (BindAddrs (effective_config config))) 0 t1)
    as (_ & Hst & _ & Hls2 & Hc2 & _); [cbn; lia|].
  unfold GetAutoBindPort.
  rewrite Hls2, Hc2, Hst, Hls, Hc, Htr, requested_ports_app, Hreq.
  rewrite (requested_ports_go (map EvGoQuicListen _)), app_nil_r.
  - split; [exact Hall|]. split; [reflexivity|].
    destruct new as [|ln new].
    + destruct (BindAddrs (effective_config config));
        [contradiction|discriminate].
    + cbn. f_equal. now inversion Hall.
  - apply Forall_forall. intros e He. apply in_map_iff in He as (ln & <- & _).
    exact I.
Qed.

Lemma fixed_bind_port_is_kept_witness :
  let t := fst (NewQuicTransport env_ok cfg_demo) in
  Forall (fun ln => Port (Addr ln) = BindPort cfg_demo) (quicListeners t)
  /\ requested_ports (trace t)
     = repeat (BindPort cfg_demo) (length (BindAddrs (cfg t)))
  /\ GetAutoBindPort t = Some (BindPort cfg_demo).
Proof.
  apply (fixed_bind_port_is_kept env_ok cfg_demo).
  - vm_compute. discriminate.
  - vm_compute. reflexivity.
Defined.

(** X18: a bind address that [net.ParseIP] rejects makes the
    constructor return an error, wherever it stands in the list. *)
Theorem unparseable_bind_address_is_refused
        (E : Env) (config : QuicTransportConfig) (a : string) :
  In a (BindAddrs config) ->
  ParseIP E a = None ->
  exists err, snd (NewQuicTransport E config) = Some err.
Proof.
  intros Hin Hparse.
  assert (Heff : effective_config config = config).
  { unfold effective_config. destruct (BindAddrs config); [destruct Hin|].
    reflexivity. }
  destruct (NewQuicTransport_listeners_unparseable E (BindAddrs config) a
              Hin Hparse (BindPort config) (fresh config)) as (err & Herr).
  destruct (NewQuicTransport_ends E config)
    as [(e & _ & ->)|[(_ & e & _ & ->)|(_ & Hl & _ & _)]];
    cbn [snd]; eauto.
  rewrite Heff, Herr in Hl. discriminate.
Qed.

Lemma unparseable_bind_address_is_refused_witness :
  exists err,
    snd (NewQuicTransport env_ok
           (with_BindAddrs cfg_demo ["127.0.0.1"; "localhost"]%string))
    = Some err.
Proof.
  apply (unparseable_bind_address_is_refused env_ok
           (with_BindAddrs cfg_demo ["127.0.0.1"; "localhost"]%string)
           "localhost").
  - simpl. right. left. reflexivity.
  - reflexivity.
Defined.

(** ** The advertised address *)

Lemma FinalAdvertiseAddr_state E ip port t :
  match snd (FinalAdvertiseAddr E ip port t) with
  | Ok (a, p) =>
      fst (FinalAdvertiseAddr E ip port t)
      = set_advertiseAddr
          (set_trace t (trace t ++ [EvLog Debug "FinalAdvertiseAddr"]))
          (UDPAddr_String E {| ip_of := a; Port := p |})
  | _ => fst (FinalAdvertiseAddr E ip port t) = t
  end.
Proof.
  unfold FinalAdvertiseAddr, parse_or, setAdvertisedAddr. go_unfold. cbn.
  repeat (break_match; cbn in *; try reflexivity; try discriminate).
Qed.

(** X19: where a successful [FinalAdvertiseAddr] takes its answer from.
    With an explicit [ip] the result is the parsed [ip] and the [port]
    argument, whatever the transport is bound to.  With [ip] empty the
    [port] argument is ignored: the port is the one of the first
    listener ([GetAutoBindPort]), and the address is the parsed private
    IP when the first bind address is 0.0.0.0, the parsed first inet6
    address when it is "::", and the first listener's IP otherwise. *)
Theorem advertise_address_source E ip port t a p :
  snd (FinalAdvertiseAddr E ip port t) = Ok (a, p) ->
  (ip <> ""%string -> ParseIP E ip = Some a /\ p = port)
  /\ (ip = ""%string ->
      GetAutoBindPort t = Some p
      /\ exists first rest,
           BindAddrs (cfg t) = first :: rest
           /\ (first = zeroZeroZeroZero ->
               exists s, GetPrivateIP E = inr s /\ s <> ""%string
                         /\ ParseIP E s = Some a)
           /\ (first <> zeroZeroZeroZero -> first = colonColon ->
               exists s, GetFirstAddressOf E = inr s
                         /\ ParseIP E s = Some a)
           /\ (first <> zeroZeroZeroZero -> first <> colonColon ->
               exists ln ls, quicListeners t = ln :: ls
                             /\ a = ip_of (Addr ln))).
Proof.
  unfold FinalAdvertiseAddr, parse_or, setAdvertisedAddr. go_unfold. cbn.
  destruct (String.eqb_spec ip "") as [->|Hne]; cbn.
  - intros H. split; [intros Hc; now contradiction Hc|]. intros _.
    destruct (BindAddrs (cfg t)) as [|first rest]; cbn in H;
      [discriminate|].
    destruct (String.eqb_spec first zeroZeroZeroZero) as [Hz|Hz]; cbn in H.
    + destruct (GetPrivateIP E) as [err|s] eqn:Hp; cbn in H;
        [discriminate|].
      destruct (String.eqb_spec s "") as [Hs|Hs]; cbn in H; [discriminate|].
      destruct (ParseIP E s) as [a'|] eqn:Hpa; cbn in H; [|discriminate].
      destruct (GetAutoBindPort t) as [p'|]; cbn in H; [|discriminate].
      inversion H; subst a' p'. split; [reflexivity|].
      exists first, rest. split; [reflexivity|].
      split; [intros _; now exists s|].
      split; intros Hc; now contradiction Hc.
    + destruct (String.eqb_spec first colonColon) as [Hc|Hc]; cbn in H.
      * destruct (GetFirstAddressOf E) as [err|s] eqn:Hp; cbn in H;
          [discriminate|].
        destruct (ParseIP E s) as [a'|] eqn:Hpa; cbn in H; [|discriminate].
        destruct (GetAutoBindPort t) as [p'|]; cbn in H; [|discriminate].
        inversion H; subst a' p'. split; [reflexivity|].
        exists first, rest. split; [reflexivity|].
        split; [intros Hc'; now contradiction Hz|].
        split; [intros _ _; now exists s|].
        intros _ Hc'; now contradiction Hc'.
      * destruct (quicListeners t) as [|ln ls] eqn:Hl; cbn in H;
          [discriminate|].
        unfold GetAutoBindPort in *. rewrite Hl in *. cbn in H.
        inversion H; subst a p. split; [reflexivity|].
        exists first, rest. split; [reflexivity|].
        split; [intros Hc'; now contradiction Hz|].
        split; [intros _ Hc'; now contradiction Hc|].
        intros _ _. now exists ln, ls.
  - intros H. split; [|intros Hc; now contradiction Hne]. intros _.
    destruct (ParseIP E ip) as [a'|]; cbn in H; [|discriminate].
    inversion H; now subst.
Qed.

Lemma advertise_address_source_witness :
  (""%string <> ""%string ->
   ParseIP env_ok ""%string = Some loopback /\ 7946 = 9)
  /\ (""%string = ""%string ->
      GetAutoBindPort t_demo = Some 7946
      /\ exists first rest,
           BindAddrs (cfg t_demo) = first :: rest
           /\ (first = zeroZeroZeroZero ->
               exists s, GetPrivateIP env_ok = inr s /\ s <> ""%string
                         /\ ParseIP env_ok s = Some loopback)
           /\ (first <> zeroZeroZeroZero -> first = colonColon ->
               exists s, GetFirstAddressOf env_ok = inr s
                         /\ ParseIP env_ok s = Some loopback)
           /\ (first <> zeroZeroZeroZero -> first <> colonColon ->
               exists ln ls, quicListeners t_demo = ln :: ls
                             /\ loopback = ip_of (Addr ln))).
Proof.
  apply (advertise_address_source env_ok "" 9 t_demo loopback 7946).
  reflexivity.
Defined.

(** X20: a successful [FinalAdvertiseAddr] caches the string form of the
    address it returns (what [getAdvertisedAddr] reads afterwards), logs
    one debug line and touches nothing else; a call that fails, or
    panics on an empty slice, leaves the transport as it was, the cached
    address included. *)
Theorem FinalAdvertiseAddr_caches_what_it_returns E ip port t :
  let r := FinalAdvertiseAddr E ip port t in
  match snd r with
  | Ok (a, p) =>
      advertiseAddr (fst r) = UDPAddr_String E {| ip_of := a; Port := p |}
      /\ trace (fst r) = trace t ++ [EvLog Debug "FinalAdvertiseAddr"]
      /\ cfg (fst r) = cfg t
      /\ quicListeners (fst r) = quicListeners t
      /\ packetCh (fst r) = packetCh t /\ connCh (fst r) = connCh t
      /\ shutdown (fst r) = shutdown t /\ wg (fst r) = wg t
      /\ counters (fst r) = counters t
  | _ => fst r = t
  end.
Proof.
  cbn zeta. pose proof (FinalAdvertiseAddr_state E ip port t) as H.
  destruct (snd (FinalAdvertiseAddr E ip port t)) as [[a p]| |];
    try exact H.
  rewrite H. repeat split.
Qed.

(** X21: the address a successful [FinalAdvertiseAddr] returned is the
    sender address peers see.  When its string form has at most 255
    bytes, the next packet [writeTo] sends on a healthy connection is
    delivered by the receiving [handleConnection] with that string as
    [From] and the payload as [Buf]. *)
Theorem advertised_address_reaches_the_peer
        (E E' : Env) (ip : string) (port : Z) (t peer : QuicTransport)
        (a : IP) (p : Z) (c : Conn) (payload : list byte)
        (addr remote : string) :
  snd (FinalAdvertiseAddr E ip port t) = Ok (a, p) ->
  (String.length (UDPAddr_String E {| ip_of := a; Port := p |}) <= 255)%nat ->
  tls_DialWithDialer E (trace (fst (FinalAdvertiseAddr E ip port t)))
    (PacketDialTimeout (cfg t)) "udp" addr = inr c ->
  healthy c ->
  let t1 := fst (FinalAdvertiseAddr E ip port t) in
  snd (writeTo E payload addr t1) = None
  /\ exists evs,
       trace (fst (writeTo E payload addr t1)) = trace t1 ++ evs
       /\ exists ts,
            packetCh (handleConnection E' (conn_of remote (wire evs)) peer)
            = packetCh peer
                ++ [ {| Buf := payload;
                        From := UDPAddr_String E {| ip_of := a; Port := p |};
                        Timestamp := ts |} ].
Proof.
  intros Hok Hlen Hdial Hc. cbn zeta.
  pose proof (FinalAdvertiseAddr_state E ip port t) as Hst.
  rewrite Hok in Hst.
  set (t1 := fst (FinalAdvertiseAddr E ip port t)) in *.
  assert (Ha : advertiseAddr t1
               = UDPAddr_String E {| ip_of := a; Port := p |})
    by now rewrite Hst.
  assert (Hcfg : cfg t1 = cfg t) by now rewrite Hst.
  destruct (writeTo_healthy E t1 c payload addr) as (Hnil & evs & Htr & Hw).
  - now rewrite Hcfg.
  - exact Hc.
  - now rewrite Ha.
  - split; [exact Hnil|]. exists evs. split; [exact Htr|].
    destruct (handleConnection_frame E' (conn_of remote (wire evs)) peer
                (list_byte_of_string (advertiseAddr t1)) payload
                (md5.Sum payload))
      as ((ts & Hp) & _).
    + cbn. rewrite Hw. unfold frame_of.
      now rewrite length_list_byte_of_string.
    + rewrite length_list_byte_of_string, Ha. exact Hlen.
    + apply md5_Sum_length.
    + exists ts. rewrite Hp, string_of_list_byte_of_string, Ha.
      reflexivity.
Qed.

Lemma advertised_address_reaches_the_peer_witness :
  let t1 := fst (FinalAdvertiseAddr env_ok "127.0.0.1" 7946 t_demo) in
  snd (writeTo env_ok hi "10.0.0.2:7946" t1) = None
  /\ exists evs,
       trace (fst (writeTo env_ok hi "10.0.0.2:7946" t1)) = trace t1 ++ evs
       /\ exists ts,
            packetCh (handleConnection env_ok (conn_of a_peer (wire evs))
                        t_demo)
            = packetCh t_demo
                ++ [ {| Buf := hi;
                        From := UDPAddr_String env_ok
                                  {| ip_of := loopback; Port := 7946 |};
                        Timestamp := ts |} ].
Proof.
  apply (advertised_address_reaches_the_peer env_ok env_ok "127.0.0.1" 7946
           t_demo t_demo loopback 7946 okConn hi "10.0.0.2:7946" a_peer).
  - reflexivity.
  - vm_compute. lia.
  - reflexivity.
  - repeat split.
Defined.
